(** * The Android low memory killer (drivers/staging/android/lowmemorykiller.c)

    A shallow embedding of [task_notify_func] and [lowmem_shrink] together
    with the properties of the reclaim decision: threshold lookup, victim
    selection, the death-pending debounce and the value handed back to the
    shrinker framework.

    The driver is built for 32-bit ARM: [int], [long], [unsigned],
    [size_t] and [unsigned long] are all 32 bits wide.  Integers are
    modelled as [Z] with the wrap-around of every conversion written out.
    [lowmem_print] only writes to the kernel log and is left out, as are
    the spin lock and the per-task lock, which have no effect on a
    sequential run. *)

From Stdlib Require Import ZArith Lia String.
From stdpp Require Import base numbers list.

Local Open Scope Z_scope.

(** ** Machine integers *)

Module Int32.

Definition modulus : Z := 2 ^ 32.
Definition half_modulus : Z := 2 ^ 31.

(** Conversion to a 32-bit unsigned type. *)
Definition to_uint (x : Z) : Z := x mod modulus.

(** Conversion to a 32-bit signed type (two's complement). *)
Definition to_int (x : Z) : Z :=
  let u := x mod modulus in
  if u <? half_modulus then u else u - modulus.

Definition is_int (x : Z) : Prop := - half_modulus <= x < half_modulus.
Definition is_uint (x : Z) : Prop := 0 <= x < modulus.

End Int32.

Import Int32.

(** ** Kernel facilities used by the driver

    The headers that define them are outside the driver; constants are
    gathered in a record, macros are written out for a 32-bit [long]. *)

Record platform := {
  PAGE_SIZE : Z;        (* asm/page.h *)
  HZ : Z;               (* jiffies per second *)
  OOM_ADJUST_MAX : Z    (* linux/oom.h *)
}.

(** The Stingray board: 4 KiB pages, the ARM default of 100 jiffies per
    second, oom_adj ranging over -17..15. *)
Definition stingray : platform :=
  {| PAGE_SIZE := 4096; HZ := 100; OOM_ADJUST_MAX := 15 |}.

Definition SIGKILL : Z := 9.

(** [abs(x)] of linux/kernel.h: the argument is stored in a signed
    variable and negated when negative. *)
Definition kabs (x : Z) : Z := Z.abs (to_int x).

(** [time_before_eq(a, b)] of linux/jiffies.h:
    [((long)(b) - (long)(a) >= 0)]. *)
Definition time_before_eq (a b : Z) : bool :=
  0 <=? to_int (to_int b - to_int a).

Inductive zone_stat_item :=
  | NR_FREE_PAGES
  | NR_FILE_PAGES
  | NR_SHMEM
  | NR_ACTIVE_ANON
  | NR_ACTIVE_FILE
  | NR_INACTIVE_ANON
  | NR_INACTIVE_FILE.

Record mm_struct := {
  get_mm_rss : Z          (* resident pages, an unsigned long *)
}.

Record signal_struct := {
  oom_adj : Z
}.

(** A task is identified by the address of its [task_struct]; [mm] and
    [signal] are pointers that may be NULL. *)
Record task_struct := {
  task_addr : Z;
  pid : Z;
  comm : string;
  mm : option mm_struct;
  signal : option signal_struct
}.

(** What one call of the shrinker sees of the rest of the kernel. *)
Record kernel_env := {
  jiffies : Z;
  global_page_state : zone_stat_item -> Z;
  processes : list task_struct;     (* for_each_process *)
  kzalloc_ok : bool                 (* does the GFP_ATOMIC allocation succeed *)
}.

(** Observable actions of a call. *)
Inductive event :=
  | Ev_task_lock (task : Z)             (* a process of the table is inspected *)
  | Ev_force_sig (sig : Z) (task : Z).  (* a signal is sent *)

(** ** Driver state *)

Definition LOWMEM_ADJ_SLOTS : Z := 12.

Record module_params := {
  lowmem_adj : list Z;
  lowmem_adj_size : Z;
  lowmem_minfree : list Z;
  lowmem_minfree_size : Z;
  lowmem_multiplier : Z;
  lowmem_oldmethod : Z
}.

Record lmk_state := {
  params : module_params;
  lowmem_deathpending : option Z;       (* NULL is [None] *)
  lowmem_deathpending_timeout : Z
}.

(** The static initialisers; unlisted array slots are zero. *)
Definition default_params : module_params := {|
  lowmem_adj := [0; 1; 6; 12; 0; 0; 0; 0; 0; 0; 0; 0];
  lowmem_adj_size := 4;
  lowmem_minfree := [3 * 512; 2 * 1024; 4 * 1024; 16 * 1024; 0; 0; 0; 0; 0; 0; 0; 0];
  lowmem_minfree_size := 4;
  lowmem_multiplier := 36;
  lowmem_oldmethod := 0
|}.

Definition initial_state : lmk_state := {|
  params := default_params;
  lowmem_deathpending := None;
  lowmem_deathpending_timeout := 0
|}.

(** Both arrays have [LOWMEM_ADJ_SLOTS] slots. *)
Definition params_wf (P : module_params) : Prop :=
  Z.of_nat (length (lowmem_adj P)) = LOWMEM_ADJ_SLOTS /\
  Z.of_nat (length (lowmem_minfree P)) = LOWMEM_ADJ_SLOTS.

(** ** task_notify_func *)

Definition task_notify_func (st : lmk_state) (task : option Z) : lmk_state :=
  if decide (task = lowmem_deathpending st)
  then {| params := params st;
          lowmem_deathpending := None;
          lowmem_deathpending_timeout := lowmem_deathpending_timeout st |}
  else st.

(** ** lowmem_shrink: threshold lookup *)

Definition effective_array_size (P : module_params) : Z :=
  let array_size := LOWMEM_ADJ_SLOTS in
  let array_size :=
    if lowmem_adj_size P <? array_size then lowmem_adj_size P else array_size in
  let array_size :=
    if lowmem_minfree_size P <? array_size then lowmem_minfree_size P else array_size in
  array_size.

(** [other_free] and [other_file] are [int], the minima are [size_t]: the
    comparison is made on unsigned values. *)
Definition below_minfree (P : module_params) (other_free other_file : Z) (i : nat) : bool :=
  (to_uint other_free <? lowmem_minfree P !!! i) &&
  (to_uint other_file <? lowmem_minfree P !!! i).

(** The [for] loop over the tiers: [n] iterations are left, [i] is the
    current index, [min_adj] the value kept when no tier matches. *)
Fixpoint min_adj_loop (P : module_params) (other_free other_file : Z)
    (n : nat) (i : nat) (min_adj : Z) : Z :=
  match n with
  | O => min_adj
  | S n' =>
      if below_minfree P other_free other_file i
      then lowmem_adj P !!! i
      else min_adj_loop P other_free other_file n' (S i) min_adj
  end.

Definition resolve_min_adj (K : platform) (P : module_params)
    (other_free other_file : Z) : Z :=
  min_adj_loop P other_free other_file
    (Z.to_nat (effective_array_size P)) 0%nat (OOM_ADJUST_MAX K + 1).

(** ** lowmem_shrink: the scan of the process table *)

Record scan_state := {
  selected : option task_struct;
  selected_tasksize : Z;
  selected_oom_adj : Z;
  lowmem_delta : Z;
  banner : Z;
  ooms_seen : option (list Z);    (* [None] when kzalloc returned NULL *)
  ooms_overrun : bool;            (* a store fell outside the 20 ints *)
  scan_trace : list event
}.

Definition OOMS_SEEN_LEN : nat := 20.

(** [ooms_seen[oom_adj]++], for [oom_adj > -1]. *)
Definition ooms_seen_incr (buf : list Z) (adj : Z) : list Z * bool :=
  let i := Z.to_nat adj in
  match buf !! i with
  | Some c => (<[ i := to_int (c + 1) ]> buf, false)
  | None => (buf, true)
  end.

Definition count_oom_adj (s : scan_state) (adj : Z) : scan_state :=
  match ooms_seen s with
  | Some buf =>
      if -1 <? adj then
        let '(buf', over) := ooms_seen_incr buf adj in
        {| selected := selected s;
           selected_tasksize := selected_tasksize s;
           selected_oom_adj := selected_oom_adj s;
           lowmem_delta := lowmem_delta s;
           banner := banner s;
           ooms_seen := Some buf';
           ooms_overrun := ooms_overrun s || over;
           scan_trace := scan_trace s |}
      else s
  | None => s
  end.

Definition log_task_lock (s : scan_state) (p : task_struct) : scan_state :=
  {| selected := selected s;
     selected_tasksize := selected_tasksize s;
     selected_oom_adj := selected_oom_adj s;
     lowmem_delta := lowmem_delta s;
     banner := banner s;
     ooms_seen := ooms_seen s;
     ooms_overrun := ooms_overrun s;
     scan_trace := scan_trace s ++ [Ev_task_lock (task_addr p)] |}.

Definition set_lowmem_delta (s : scan_state) (delta : Z) : scan_state :=
  {| selected := selected s;
     selected_tasksize := selected_tasksize s;
     selected_oom_adj := selected_oom_adj s;
     lowmem_delta := delta;
     banner := banner s;
     ooms_seen := ooms_seen s;
     ooms_overrun := ooms_overrun s;
     scan_trace := scan_trace s |}.

(** The tail of the loop body: [selected = p; ...; banner++]. *)
Definition select (s : scan_state) (p : task_struct) (tasksize adj : Z) : scan_state :=
  {| selected := Some p;
     selected_tasksize := tasksize;
     selected_oom_adj := adj;
     lowmem_delta := lowmem_delta s;
     banner := to_int (banner s + 1);
     ooms_seen := ooms_seen s;
     ooms_overrun := ooms_overrun s;
     scan_trace := scan_trace s |}.

(** [abs((nr_to_scan * lowmem_multiplier) - tasksize)] stored in an
    [unsigned]: the product and the difference are unsigned. *)
Definition size_delta (P : module_params) (nr_to_scan tasksize : Z) : Z :=
  to_uint (kabs (to_uint (to_uint (nr_to_scan * lowmem_multiplier P) - tasksize))).

(** One iteration of [for_each_process]. *)
Definition scan_step (P : module_params) (nr_to_scan min_adj : Z)
    (s : scan_state) (p : task_struct) : scan_state :=
  let s := log_task_lock s p in
  match mm p, signal p with
  | Some m, Some sig =>
      let adj := oom_adj sig in
      let s := count_oom_adj s adj in
      if adj <? min_adj then s else
      let tasksize := to_int (get_mm_rss m) in
      if tasksize <=? 0 then s else
      match selected s with
      | Some _ =>
          if adj <? selected_oom_adj s then s else
          if negb (lowmem_oldmethod P =? 0) then
            if (adj =? selected_oom_adj s) && (tasksize <=? selected_tasksize s)
            then s
            else select s p tasksize adj
          else
            let delta := size_delta P nr_to_scan tasksize in
            if (adj =? selected_oom_adj s) && (lowmem_delta s <? delta)
            then s
            else
              let s := if delta <=? lowmem_delta s
                       then set_lowmem_delta s delta else s in
              select s p tasksize adj
      | None => select s p tasksize adj
      end
  | _, _ => s
  end.

Definition scan_init (K : platform) (min_adj : Z) (alloc_ok : bool) : scan_state :=
  {| selected := None;
     selected_tasksize := 0;
     selected_oom_adj := min_adj;
     lowmem_delta := to_uint ((1048576 * 1024) / PAGE_SIZE K);
     banner := 0;
     ooms_seen := if alloc_ok then Some (replicate OOMS_SEEN_LEN 0) else None;
     ooms_overrun := false;
     scan_trace := [] |}.

Definition lowmem_scan (P : module_params) (nr_to_scan min_adj : Z)
    (s : scan_state) (ps : list task_struct) : scan_state :=
  fold_left (scan_step P nr_to_scan min_adj) ps s.

(** ** lowmem_shrink *)

Record shrink_result := {
  ret : Z;                      (* the returned [int] *)
  state_after : lmk_state;
  trace : list event;
  killed : option (task_struct * Z);  (* [selected], [selected_tasksize] at exit *)
  overrun : bool                (* a store outside [ooms_seen] occurred *)
}.

(** [rem] before any victim is subtracted: the sum of four
    [unsigned long] counters stored in an [int]. *)
Definition reclaimable (env : kernel_env) : Z :=
  to_int (to_uint (to_uint (to_uint
    (global_page_state env NR_ACTIVE_ANON + global_page_state env NR_ACTIVE_FILE)
    + global_page_state env NR_INACTIVE_ANON)
    + global_page_state env NR_INACTIVE_FILE)).

Definition guard_blocks (st : lmk_state) (env : kernel_env) : bool :=
  bool_decide (lowmem_deathpending st <> None) &&
  time_before_eq (jiffies env) (lowmem_deathpending_timeout st).

Definition lowmem_shrink (K : platform) (st : lmk_state) (env : kernel_env)
    (nr_to_scan : Z) : shrink_result :=
  let P := params st in
  let other_free := to_int (global_page_state env NR_FREE_PAGES) in
  let other_file :=
    to_int (to_uint (global_page_state env NR_FILE_PAGES
                     - global_page_state env NR_SHMEM)) in
  if guard_blocks st env then
    {| ret := 0; state_after := st; trace := []; killed := None;
       overrun := false |}
  else
    let min_adj := resolve_min_adj K P other_free other_file in
    let rem := reclaimable env in
    if (nr_to_scan <=? 0) || (min_adj =? OOM_ADJUST_MAX K + 1) then
      {| ret := rem; state_after := st; trace := []; killed := None;
         overrun := false |}
    else
      let s := lowmem_scan P nr_to_scan min_adj
                 (scan_init K min_adj (kzalloc_ok env)) (processes env) in
      match selected s with
      | Some victim =>
          {| ret := to_int (rem - selected_tasksize s);
             state_after :=
               {| params := P;
                  lowmem_deathpending := Some (task_addr victim);
                  lowmem_deathpending_timeout := to_uint (jiffies env + HZ K) |};
             trace := scan_trace s ++ [Ev_force_sig SIGKILL (task_addr victim)];
             killed := Some (victim, selected_tasksize s);
             overrun := ooms_overrun s |}
      | None =>
          {| ret := rem; state_after := st; trace := scan_trace s;
             killed := None;
             overrun := ooms_overrun s |}
      end.

(** ** Vocabulary of the statements *)

(** The sum of the four LRU counters, as a mathematical integer. *)
Definition lru_pages (env : kernel_env) : Z :=
  global_page_state env NR_ACTIVE_ANON + global_page_state env NR_ACTIVE_FILE
  + global_page_state env NR_INACTIVE_ANON + global_page_state env NR_INACTIVE_FILE.

(** The two tier sequences the module parameters denote: the filled
    prefixes of the arrays. *)
Definition tiers (P : module_params) : list Z :=
  take (Z.to_nat (lowmem_adj_size P)) (lowmem_adj P).

Definition minima (P : module_params) : list Z :=
  take (Z.to_nat (lowmem_minfree_size P)) (lowmem_minfree P).

Definition tier_count (P : module_params) : nat :=
  Nat.min (length (tiers P)) (length (minima P)).

(** Tier [i] matches when both page counts are below its minimum. *)
Definition tier_matches (P : module_params) (free file : Z) (i : nat) : Prop :=
  exists m, minima P !! i = Some m /\ free < m /\ file < m.

(** [p] survives the filters of the loop body: it has an mm and a signal
    struct, its [oom_adj] is [adj >= min_adj] and its resident size, read
    into an [int], is [size > 0]. *)
Definition candidate (min_adj : Z) (p : task_struct) (adj size : Z) : Prop :=
  exists m sig, mm p = Some m /\ signal p = Some sig
    /\ adj = oom_adj sig /\ size = to_int (get_mm_rss m)
    /\ min_adj <= adj /\ 0 < size.

(** [p] has an mm and a signal struct, so the loop reads its [oom_adj]. *)
Definition observed (p : task_struct) (adj : Z) : Prop :=
  exists m sig, mm p = Some m /\ signal p = Some sig /\ adj = oom_adj sig.

(** The scan has a maximal-priority candidate of [seen] selected, or none
    when [seen] holds no candidate. *)
Definition scan_inv (min_adj : Z) (seen : list task_struct) (s : scan_state) : Prop :=
  match selected s with
  | None => forall p adj size, p ∈ seen -> ~ candidate min_adj p adj size
  | Some v =>
      v ∈ seen
      /\ candidate min_adj v (selected_oom_adj s) (selected_tasksize s)
      /\ forall p adj size, p ∈ seen -> candidate min_adj p adj size ->
           adj <= selected_oom_adj s
  end.

(** The bookkeeping at the head of the loop body, before the filters. *)
Definition probe (s : scan_state) (p : task_struct) (adj : Z) : scan_state :=
  count_oom_adj (log_task_lock s p) adj.

(** The selection made so far: victim, size, priority and best delta. *)
Definition selection (s : scan_state) : option task_struct * Z * Z * Z :=
  (selected s, selected_tasksize s, selected_oom_adj s, lowmem_delta s).

(** The minimum priority a call computes from the page counters. *)
Definition shrink_min_adj (K : platform) (st : lmk_state) (env : kernel_env) : Z :=
  resolve_min_adj K (params st)
    (to_int (global_page_state env NR_FREE_PAGES))
    (to_int (to_uint (global_page_state env NR_FILE_PAGES
                      - global_page_state env NR_SHMEM))).

(** The scan a call runs once the guard and the thresholds let it through. *)
Definition shrink_scan (K : platform) (st : lmk_state) (env : kernel_env)
    (nr_to_scan : Z) : scan_state :=
  lowmem_scan (params st) nr_to_scan (shrink_min_adj K st env)
    (scan_init K (shrink_min_adj K st env) (kzalloc_ok env)) (processes env).

(** The histogram buffer exists and has its 20 slots. *)
Definition hist_ok (s : scan_state) : Prop :=
  exists buf, ooms_seen s = Some buf /\ length buf = OOMS_SEEN_LEN.

(** Counting [p] stores past the end of a 20-slot histogram. *)
Definition overruns (p : task_struct) : bool :=
  match mm p, signal p with
  | Some _, Some sig => (-1 <? oom_adj sig) && (19 <? oom_adj sig)
  | _, _ => false
  end.

(** The page counts the thresholds are compared with, as the kernel
    counters give them. *)
Definition free_pages (env : kernel_env) : Z :=
  global_page_state env NR_FREE_PAGES.

Definition file_pages (env : kernel_env) : Z :=
  global_page_state env NR_FILE_PAGES - global_page_state env NR_SHMEM.

(** A sequence in ascending order, as the driver's header asks of both
    parameter lists. *)
Definition ascending (l : list Z) : Prop :=
  forall i j a b, (i <= j)%nat -> l !! i = Some a -> l !! j = Some b -> a <= b.

(** Does a call get as far as the scan of the process table. *)
Definition reaches_scan (K : platform) (st : lmk_state) (env : kernel_env)
    (nr_to_scan : Z) : bool :=
  negb (guard_blocks st env) && (0 <? nr_to_scan)
  && negb (shrink_min_adj K st env =? OOM_ADJUST_MAX K + 1).

(** Legacy mode: no candidate seen so far at the selected priority is
    larger than the selected task. *)
Definition legacy_inv (min_adj : Z) (seen : list task_struct) (s : scan_state) : Prop :=
  match selected s with
  | None => True
  | Some _ =>
      forall p adj size, p ∈ seen -> candidate min_adj p adj size ->
        adj = selected_oom_adj s -> size <= selected_tasksize s
  end.

(** Default mode, after a first candidate [c1] of [z1] pages and priority
    [a] was accepted with the bound at [bound], and with only candidates of
    priority [a] in [seen] since: either [c1] is still selected and every
    later candidate was further than [bound] from the target, or the
    selected task is a later candidate whose delta is the current bound and
    the least among the later candidates. *)
Definition equal_priority_inv (P : module_params) (nr_to_scan min_adj : Z)
    (c1 : task_struct) (z1 a bound : Z)
    (seen : list task_struct) (s : scan_state) : Prop :=
  selected_oom_adj s = a
  /\ ((selected s = Some c1 /\ selected_tasksize s = z1
       /\ lowmem_delta s = bound
       /\ forall p adj size, p ∈ seen -> candidate min_adj p adj size ->
            bound < size_delta P nr_to_scan size)
      \/ (exists v zv, v ∈ seen /\ candidate min_adj v a zv
            /\ selected s = Some v /\ selected_tasksize s = zv
            /\ lowmem_delta s = size_delta P nr_to_scan zv
            /\ size_delta P nr_to_scan zv <= bound
            /\ forall p adj size, p ∈ seen -> candidate min_adj p adj size ->
                 size_delta P nr_to_scan zv <= size_delta P nr_to_scan size)).

(** Is [p] counted in slot [i] of the histogram. *)
Definition counted_at (i : nat) (p : task_struct) : bool :=
  match mm p, signal p with
  | Some _, Some sig => (-1 <? oom_adj sig) && (Z.to_nat (oom_adj sig) =? i)%nat
  | _, _ => false
  end.

(** The number of processes of [ps] counted in slot [i]. *)
Fixpoint tally (i : nat) (ps : list task_struct) : Z :=
  match ps with
  | [] => 0
  | p :: ps' => (if counted_at i p then 1 else 0) + tally i ps'
  end.

(** The filters of the loop body as a test. *)
Definition is_candidate (min_adj : Z) (p : task_struct) : bool :=
  match mm p, signal p with
  | Some m, Some sig => (min_adj <=? oom_adj sig) && (0 <? to_int (get_mm_rss m))
  | _, _ => false
  end.

(** The state left by a call that found nothing to do. *)
Definition nothing_done (r : Z) (st : lmk_state) : shrink_result :=
  {| ret := r; state_after := st; trace := []; killed := None; overrun := false |}.

(** ** Concrete inputs used in the examples *)

Definition mk_task (addr adj rss : Z) : task_struct :=
  {| task_addr := addr; pid := addr; comm := "task"%string;
     mm := Some {| get_mm_rss := rss |};
     signal := Some {| oom_adj := adj |} |}.

(** [free] free pages, [file] file pages, no shmem, every LRU list
    holding [lru] pages. *)
Definition page_counts (free file lru : Z) (i : zone_stat_item) : Z :=
  match i with
  | NR_FREE_PAGES => free
  | NR_FILE_PAGES => file
  | NR_SHMEM => 0
  | _ => lru
  end.

Definition mk_env (now free file lru : Z) (ps : list task_struct) : kernel_env :=
  {| jiffies := now; global_page_state := page_counts free file lru;
     processes := ps; kzalloc_ok := true |}.

Definition pending_state (P : module_params) (victim deadline : Z) : lmk_state :=
  {| params := P; lowmem_deathpending := Some victim;
     lowmem_deathpending_timeout := deadline |}.

Definition legacy_params : module_params :=
  {| lowmem_adj := lowmem_adj default_params;
     lowmem_adj_size := lowmem_adj_size default_params;
     lowmem_minfree := lowmem_minfree default_params;
     lowmem_minfree_size := lowmem_minfree_size default_params;
     lowmem_multiplier := lowmem_multiplier default_params;
     lowmem_oldmethod := 1 |}.

(** * Properties *)

(** ** Conversions between the integer types *)

Section Int32Facts.

Lemma modulus_eq : modulus = 4294967296.
Proof. reflexivity. Qed.

Lemma half_modulus_eq : half_modulus = 2147483648.
Proof. reflexivity. Qed.

Lemma to_uint_range x : is_uint (to_uint x).
Proof.
  unfold is_uint, to_uint. rewrite modulus_eq.
  apply Z.mod_pos_bound. lia.
Qed.

Lemma to_uint_id x : is_uint x -> to_uint x = x.
Proof. unfold is_uint, to_uint. intros H. apply Z.mod_small. exact H. Qed.

Lemma to_int_range x : is_int (to_int x).
Proof.
  unfold is_int, to_int.
  pose proof (Z.mod_pos_bound x modulus) as Hb.
  rewrite modulus_eq, half_modulus_eq in *.
  destruct (Z.ltb_spec (x mod 4294967296) 2147483648); lia.
Qed.

Lemma to_int_id x : is_int x -> to_int x = x.
Proof.
  unfold is_int, to_int. rewrite modulus_eq, half_modulus_eq. intros H.
  destruct (Z_lt_dec x 0) as [Hneg | Hpos].
  - replace (x mod 4294967296) with (x + 4294967296).
    + destruct (Z.ltb_spec (x + 4294967296) 2147483648); lia.
    + apply Z.mod_unique with (q := -1); lia.
  - rewrite Z.mod_small by lia.
    destruct (Z.ltb_spec x 2147483648); lia.
Qed.

Lemma to_int_to_uint x : to_int (to_uint x) = to_int x.
Proof.
  unfold to_int, to_uint. rewrite Z.mod_mod; [reflexivity | discriminate].
Qed.

Lemma to_uint_to_int x : to_uint (to_int x) = to_uint x.
Proof.
  unfold to_int, to_uint.
  destruct (Z.ltb_spec (x mod modulus) half_modulus).
  - rewrite Z.mod_mod; [reflexivity | discriminate].
  - rewrite Zminus_mod, Z.mod_same, Z.sub_0_r, !Z.mod_mod;
      try reflexivity; discriminate.
Qed.

Lemma to_uint_add_l a b : to_uint (to_uint a + b) = to_uint (a + b).
Proof. unfold to_uint. apply Zplus_mod_idemp_l. Qed.

Lemma to_int_congr a b : to_uint a = to_uint b -> to_int a = to_int b.
Proof. unfold to_int, to_uint. now intros ->. Qed.

Lemma to_int_add_l a b : to_int (to_uint a + b) = to_int (a + b).
Proof. apply to_int_congr, to_uint_add_l. Qed.

End Int32Facts.

Lemma reclaimable_wraps env : reclaimable env = to_int (lru_pages env).
Proof.
  unfold reclaimable, lru_pages.
  rewrite to_int_to_uint, to_int_add_l, <- Z.add_assoc, to_int_add_l.
  now rewrite Z.add_assoc.
Qed.

Lemma reclaimable_exact env :
  0 <= lru_pages env < half_modulus -> reclaimable env = lru_pages env.
Proof.
  intros H. rewrite reclaimable_wraps. apply to_int_id.
  unfold is_int. rewrite half_modulus_eq in *. lia.
Qed.

(** ** The death-pending guard *)

Lemma guard_blocks_true st env :
  guard_blocks st env = true <->
  lowmem_deathpending st <> None /\
  time_before_eq (jiffies env) (lowmem_deathpending_timeout st) = true.
Proof.
  unfold guard_blocks. rewrite andb_true_iff, bool_decide_eq_true. tauto.
Qed.

Lemma shrink_blocked K st env n :
  guard_blocks st env = true -> lowmem_shrink K st env n = nothing_done 0 st.
Proof. intros H. unfold lowmem_shrink. now rewrite H. Qed.

(** C8: with a victim pending, the exit notification of that very task
    resets [lowmem_deathpending] to NULL and touches nothing else, while the
    notification of any other task leaves the whole state as it was. *)
Theorem task_notify_clears_only_pending (st : lmk_state) (p q : Z) :
  lowmem_deathpending st = Some p ->
  task_notify_func st (Some p) =
    {| params := params st; lowmem_deathpending := None;
       lowmem_deathpending_timeout := lowmem_deathpending_timeout st |}
  /\ (q <> p -> task_notify_func st (Some q) = st).
Proof.
  intros Hp. unfold task_notify_func. rewrite Hp. split.
  - now rewrite decide_True.
  - intros Hq. rewrite decide_False; [reflexivity | congruence].
Qed.

Lemma task_notify_clears_only_pending_witness :
  lowmem_deathpending
    (task_notify_func (pending_state default_params 42 100) (Some 7)) = Some 42
  /\ lowmem_deathpending
    (task_notify_func (pending_state default_params 42 100) (Some 42)) = None.
Proof.
  destruct (task_notify_clears_only_pending
              (pending_state default_params 42 100) 42 7 eq_refl) as [Hclear Hkeep].
  split.
  - rewrite Hkeep; [reflexivity | lia].
  - rewrite Hclear. reflexivity.
Defined.

(** C2 (as the code has it): a call that finds a victim pending and the
    deadline not yet passed inspects no process, selects and kills nothing,
    leaves the state alone and returns 0. *)
Theorem shrink_while_death_pending K st env n v :
  lowmem_deathpending st = Some v ->
  time_before_eq (jiffies env) (lowmem_deathpending_timeout st) = true ->
  lowmem_shrink K st env n = nothing_done 0 st.
Proof.
  intros Hv Ht. apply shrink_blocked, guard_blocks_true.
  split; [congruence | exact Ht].
Qed.

Lemma shrink_while_death_pending_witness :
  ret (lowmem_shrink stingray (pending_state default_params 42 5100)
         (mk_env 5000 100 100 1000 [mk_task 1 6 300]) 10) = 0.
Proof.
  rewrite (shrink_while_death_pending stingray
             (pending_state default_params 42 5100)
             (mk_env 5000 100 100 1000 [mk_task 1 6 300]) 10 42);
    [reflexivity | reflexivity | vm_compute; reflexivity].
Defined.

(** C2, counterexample to a blocked call returning the estimate: victim 42
    is pending until jiffy 5100, the call arrives at jiffy 5000 with 4000
    pages on the LRU lists, and the value returned is not that estimate. *)
Lemma shrink_while_death_pending_not_estimate :
  lowmem_deathpending (pending_state default_params 42 5100) = Some 42
  /\ time_before_eq 5000 5100 = true
  /\ reclaimable (mk_env 5000 100 100 1000 [mk_task 1 6 300]) = 4000
  /\ ret (lowmem_shrink stingray (pending_state default_params 42 5100)
            (mk_env 5000 100 100 1000 [mk_task 1 6 300]) 10)
     <> reclaimable (mk_env 5000 100 100 1000 [mk_task 1 6 300]).
Proof.
  repeat split; try (vm_compute; reflexivity).
  vm_compute. discriminate.
Qed.

(** C6 (as the code has it): a call with [nr_to_scan <= 0] inspects no
    process, selects and kills nothing and leaves the guard untouched; it
    returns 0 while the guard blocks and the reclaimable estimate otherwise
    (the plain sum of the four LRU counters when that sum fits an [int]),
    and calling again under the same conditions returns the same value. *)
Theorem shrink_query_only K st env n :
  n <= 0 ->
  let r := lowmem_shrink K st env n in
  killed r = None /\ trace r = [] /\ state_after r = st
  /\ ret r = (if guard_blocks st env then 0 else reclaimable env)
  /\ (guard_blocks st env = false ->
      0 <= lru_pages env < half_modulus -> ret r = lru_pages env)
  /\ (forall n', n' <= 0 -> ret (lowmem_shrink K (state_after r) env n') = ret r).
Proof.
  intros Hn.
  assert (Hshape : forall m, m <= 0 ->
            lowmem_shrink K st env m =
            nothing_done (if guard_blocks st env then 0 else reclaimable env) st).
  { intros m Hm. unfold lowmem_shrink.
    destruct (guard_blocks st env); [reflexivity |].
    replace (m <=? 0) with true by (symmetry; apply Z.leb_le; exact Hm).
    reflexivity. }
  cbv zeta. rewrite (Hshape n Hn). cbn [killed trace state_after ret nothing_done].
  repeat split.
  - intros Hg Hrange. rewrite Hg. now apply reclaimable_exact.
  - intros n' Hn'. now rewrite (Hshape n' Hn').
Qed.

Lemma shrink_query_only_witness :
  ret (lowmem_shrink stingray initial_state
         (mk_env 5000 100 100 1000 [mk_task 1 6 300]) 0) = 4000.
Proof.
  destruct (shrink_query_only stingray initial_state
              (mk_env 5000 100 100 1000 [mk_task 1 6 300]) 0 ltac:(lia))
    as (_ & _ & _ & _ & Hsum & _).
  apply Hsum; [reflexivity | vm_compute; split; [discriminate | reflexivity]].
Defined.

(** C6, counterexample to a query always returning the estimate: a pure
    query ([nr_to_scan = 0]) made while victim 42 is still pending returns
    0 although the LRU lists hold 4000 pages. *)
Lemma shrink_query_blocked_returns_zero :
  ret (lowmem_shrink stingray (pending_state default_params 42 5100)
         (mk_env 5000 100 100 1000 [mk_task 1 6 300]) 0) = 0
  /\ reclaimable (mk_env 5000 100 100 1000 [mk_task 1 6 300]) = 4000
  /\ lru_pages (mk_env 5000 100 100 1000 [mk_task 1 6 300]) = 4000.
Proof. repeat split. Qed.

(** ** Threshold lookup *)

Section Thresholds.

Variable K : platform.

Lemma min_adj_loop_first P free file n i d :
  (exists k, (i <= k < i + n)%nat
     /\ below_minfree P free file k = true
     /\ (forall j, (i <= j < k)%nat -> below_minfree P free file j = false)
     /\ min_adj_loop P free file n i d = lowmem_adj P !!! k)
  \/ ((forall j, (i <= j < i + n)%nat -> below_minfree P free file j = false)
      /\ min_adj_loop P free file n i d = d).
Proof.
  revert i. induction n as [| n IH]; intros i; cbn [min_adj_loop].
  - right. split; [intros j Hj; lia | reflexivity].
  - destruct (below_minfree P free file i) eqn:Hi.
    + left. exists i.
      split; [lia |]. split; [exact Hi |]. split; [intros j Hj; lia | reflexivity].
    + destruct (IH (S i)) as [(k & Hk & Hm & Hlt & Hr) | (Hnone & Hr)].
      * left. exists k.
        split; [lia |]. split; [exact Hm |]. split; [| exact Hr].
        intros j Hj. destruct (decide (j = i)) as [-> | Hne]; [exact Hi |].
        apply Hlt. lia.
      * right. split; [| exact Hr].
        intros j Hj. destruct (decide (j = i)) as [-> | Hne]; [exact Hi |].
        apply Hnone. lia.
Qed.

Lemma min_adj_loop_ext P P' free file n i d :
  (forall j, (i <= j < i + n)%nat ->
     lowmem_adj P !! j = lowmem_adj P' !! j /\
     lowmem_minfree P !! j = lowmem_minfree P' !! j) ->
  min_adj_loop P free file n i d = min_adj_loop P' free file n i d.
Proof.
  revert i. induction n as [| n IH]; intros i Hagree; cbn [min_adj_loop].
  - reflexivity.
  - destruct (Hagree i ltac:(lia)) as [Hadj Hmin].
    unfold below_minfree. rewrite !list_lookup_total_alt, Hadj, Hmin.
    rewrite IH; [reflexivity |].
    intros j Hj. apply Hagree. lia.
Qed.

Lemma tier_count_effective P :
  params_wf P -> Z.to_nat (effective_array_size P) = tier_count P.
Proof.
  intros [Hadj Hmin]. unfold tier_count, tiers, minima, effective_array_size.
  rewrite !length_take. unfold LOWMEM_ADJ_SLOTS in *.
  destruct (Z.ltb_spec (lowmem_adj_size P) 12);
    destruct (Z.ltb_spec (lowmem_minfree_size P) (lowmem_adj_size P));
    destruct (Z.ltb_spec (lowmem_minfree_size P) 12); lia.
Qed.

Lemma tiers_lookup P i :
  (i < tier_count P)%nat -> tiers P !! i = lowmem_adj P !! i.
Proof.
  unfold tier_count, tiers. rewrite length_take. intros H.
  apply lookup_take_lt. lia.
Qed.

Lemma minima_lookup P i :
  (i < tier_count P)%nat -> minima P !! i = lowmem_minfree P !! i.
Proof.
  unfold tier_count, minima. rewrite (length_take (lowmem_minfree P)). intros H.
  apply lookup_take_lt. lia.
Qed.

Lemma below_minfree_matches P free file i :
  is_uint free -> is_uint file -> (i < tier_count P)%nat ->
  below_minfree P free file i = true <-> tier_matches P free file i.
Proof.
  intros Hfree Hfile Hi. unfold below_minfree, tier_matches.
  rewrite (to_uint_id _ Hfree), (to_uint_id _ Hfile), (minima_lookup _ _ Hi).
  rewrite andb_true_iff, !Z.ltb_lt, list_lookup_total_alt.
  assert (is_Some (lowmem_minfree P !! i)) as [m Hm].
  { rewrite <- (minima_lookup _ _ Hi). apply lookup_lt_is_Some.
    unfold tier_count in Hi. lia. }
  rewrite Hm. cbn. split.
  - intros [? ?]. exists m. auto.
  - intros (m' & Heq & ? & ?). injection Heq as <-. auto.
Qed.

(** C3: over the two tier sequences (the filled prefixes of [lowmem_adj]
    and [lowmem_minfree], of possibly different lengths) the lookup
    returns the cutoff at the first index, below both lengths, whose
    minimum exceeds both the free and the file page count, and
    [OOM_ADJUST_MAX + 1] (no tier) when there is none; array contents at
    or beyond the shorter length have no influence on the result. *)
Theorem resolve_min_adj_first_match (P : module_params) (free file : Z) :
  params_wf P -> is_uint free -> is_uint file ->
  ((exists i c, (i < tier_count P)%nat
      /\ tier_matches P free file i
      /\ (forall j, (j < i)%nat -> ~ tier_matches P free file j)
      /\ tiers P !! i = Some c
      /\ resolve_min_adj K P free file = c)
   \/ ((forall i, (i < tier_count P)%nat -> ~ tier_matches P free file i)
       /\ resolve_min_adj K P free file = OOM_ADJUST_MAX K + 1))
  /\ (forall P', params_wf P' -> tier_count P' = tier_count P ->
        take (tier_count P) (tiers P') = take (tier_count P) (tiers P) ->
        take (tier_count P) (minima P') = take (tier_count P) (minima P) ->
        resolve_min_adj K P' free file = resolve_min_adj K P free file)
  /\ (tiers default_params = [0; 1; 6; 12]
      /\ minima default_params = [1536; 2048; 4096; 16384]
      /\ resolve_min_adj K default_params 3000 1000 = 6).
Proof.
  intros Hwf Hfree Hfile. split; [| split].
  - unfold resolve_min_adj. rewrite (tier_count_effective _ Hwf).
    destruct (min_adj_loop_first P free file (tier_count P) 0
                (OOM_ADJUST_MAX K + 1))
      as [(k & Hk & Hm & Hlt & Hr) | (Hnone & Hr)].
    + left.
      assert (is_Some (tiers P !! k)) as [c Hc].
      { apply lookup_lt_is_Some. unfold tier_count in Hk. lia. }
      exists k, c.
      split; [lia |].
      split; [apply below_minfree_matches; auto; lia |].
      split.
      { intros j Hj Hmj.
        apply below_minfree_matches in Hmj; auto; try lia.
        rewrite Hlt in Hmj; [discriminate | lia]. }
      split; [exact Hc |].
      rewrite Hr. apply list_lookup_total_correct.
      rewrite <- Hc. symmetry. apply tiers_lookup. lia.
    + right. split; [| exact Hr].
      intros i Hi Hmi. apply below_minfree_matches in Hmi; auto.
      rewrite Hnone in Hmi; [discriminate | lia].
  - intros P' Hwf' Hcount Htiers Hminima.
    unfold resolve_min_adj.
    rewrite (tier_count_effective _ Hwf), (tier_count_effective _ Hwf'), Hcount.
    apply min_adj_loop_ext. intros j Hj.
    assert (Hj' : (j < tier_count P')%nat) by lia.
    assert (Hj0 : (j < tier_count P)%nat) by lia.
    rewrite <- (tiers_lookup P j Hj0), <- (tiers_lookup P' j Hj').
    rewrite <- (minima_lookup P j Hj0), <- (minima_lookup P' j Hj').
    rewrite <- (lookup_take_lt (tiers P) (tier_count P) j Hj0).
    rewrite <- (lookup_take_lt (tiers P') (tier_count P) j Hj0).
    rewrite <- (lookup_take_lt (minima P) (tier_count P) j Hj0).
    rewrite <- (lookup_take_lt (minima P') (tier_count P) j Hj0).
    now rewrite Htiers, Hminima.
  - repeat split.
Qed.

End Thresholds.

Lemma default_params_wf : params_wf default_params.
Proof. split; reflexivity. Qed.

Lemma resolve_min_adj_first_match_witness :
  exists i, tier_matches default_params 3000 1000 i
    /\ tiers default_params !! i = Some (resolve_min_adj stingray default_params 3000 1000).
Proof.
  assert (Hfree : is_uint 3000) by (vm_compute; split; [discriminate | reflexivity]).
  assert (Hfile : is_uint 1000) by (vm_compute; split; [discriminate | reflexivity]).
  destruct (resolve_min_adj_first_match stingray default_params 3000 1000
              default_params_wf Hfree Hfile)
    as [[(i & c & _ & Hm & _ & Hc & Hr) | (_ & Hr)] _].
  - exists i. rewrite Hr. split; assumption.
  - vm_compute in Hr. discriminate.
Defined.

(** ** One iteration of the scan *)

Section ScanStep.

Variables (P : module_params) (nr_to_scan min_adj : Z).

(** Bookkeeping that precedes the filters leaves the selection alone. *)
Lemma count_oom_adj_frame s adj :
  selected (count_oom_adj s adj) = selected s
  /\ selected_tasksize (count_oom_adj s adj) = selected_tasksize s
  /\ selected_oom_adj (count_oom_adj s adj) = selected_oom_adj s
  /\ lowmem_delta (count_oom_adj s adj) = lowmem_delta s
  /\ scan_trace (count_oom_adj s adj) = scan_trace s.
Proof.
  unfold count_oom_adj.
  destruct (ooms_seen s); [| tauto].
  destruct (-1 <? adj); [| tauto].
  destruct (ooms_seen_incr l adj). cbn. tauto.
Qed.

Lemma probe_selected s p adj : selected (probe s p adj) = selected s.
Proof. unfold probe. now rewrite (proj1 (count_oom_adj_frame _ _)). Qed.

Lemma probe_tasksize s p adj :
  selected_tasksize (probe s p adj) = selected_tasksize s.
Proof.
  unfold probe. destruct (count_oom_adj_frame (log_task_lock s p) adj)
    as (_ & H & _). now rewrite H.
Qed.

Lemma probe_oom_adj s p adj :
  selected_oom_adj (probe s p adj) = selected_oom_adj s.
Proof.
  unfold probe. destruct (count_oom_adj_frame (log_task_lock s p) adj)
    as (_ & _ & H & _). now rewrite H.
Qed.

Lemma probe_delta s p adj : lowmem_delta (probe s p adj) = lowmem_delta s.
Proof.
  unfold probe. destruct (count_oom_adj_frame (log_task_lock s p) adj)
    as (_ & _ & _ & H & _). now rewrite H.
Qed.

Lemma probe_trace s p adj :
  scan_trace (probe s p adj) = scan_trace s ++ [Ev_task_lock (task_addr p)].
Proof.
  unfold probe. destruct (count_oom_adj_frame (log_task_lock s p) adj)
    as (_ & _ & _ & _ & H). now rewrite H.
Qed.

Lemma probe_selection s p adj : selection (probe s p adj) = selection s.
Proof.
  unfold selection.
  now rewrite probe_selected, probe_tasksize, probe_oom_adj, probe_delta.
Qed.

(** The loop body on a task that passes the filters. *)
Lemma step_candidate s p adj size :
  candidate min_adj p adj size ->
  scan_step P nr_to_scan min_adj s p =
    let s1 := probe s p adj in
    match selected s1 with
    | Some _ =>
        if adj <? selected_oom_adj s1 then s1 else
        if negb (lowmem_oldmethod P =? 0) then
          if (adj =? selected_oom_adj s1) && (size <=? selected_tasksize s1)
          then s1 else select s1 p size adj
        else
          if (adj =? selected_oom_adj s1)
             && (lowmem_delta s1 <? size_delta P nr_to_scan size)
          then s1
          else select
                 (if size_delta P nr_to_scan size <=? lowmem_delta s1
                  then set_lowmem_delta s1 (size_delta P nr_to_scan size)
                  else s1) p size adj
    | None => select s1 p size adj
    end.
Proof.
  intros (m & sig & Hm & Hs & -> & -> & Hadj & Hsize).
  unfold scan_step, probe. rewrite Hm, Hs. cbv zeta.
  rewrite (proj2 (Z.ltb_ge _ _) Hadj).
  rewrite (proj2 (Z.leb_gt _ _) Hsize).
  reflexivity.
Qed.

(** The loop body on a task that fails a filter. *)
Lemma step_not_candidate s p :
  (forall adj size, ~ candidate min_adj p adj size) ->
  selection (scan_step P nr_to_scan min_adj s p) = selection s.
Proof.
  intros Hno. unfold scan_step.
  destruct (mm p) as [m |] eqn:Hm; [| reflexivity].
  destruct (signal p) as [sig |] eqn:Hs; [| reflexivity].
  cbv zeta. fold (probe s p (oom_adj sig)).
  destruct (Z.ltb_spec (oom_adj sig) min_adj); [apply probe_selection |].
  destruct (Z.leb_spec (to_int (get_mm_rss m)) 0); [apply probe_selection |].
  exfalso. apply (Hno (oom_adj sig) (to_int (get_mm_rss m))).
  exists m, sig. repeat split; auto.
Qed.

Lemma candidate_functional p adj size adj' size' :
  candidate min_adj p adj size -> candidate min_adj p adj' size' ->
  adj' = adj /\ size' = size.
Proof.
  intros (m & sig & Hm & Hs & -> & -> & _) (m' & sig' & Hm' & Hs' & -> & -> & _).
  rewrite Hm in Hm'. rewrite Hs in Hs'.
  injection Hm' as <-. injection Hs' as <-. auto.
Qed.

(** First acceptance: the task is taken and [lowmem_delta] keeps its
    initial value. *)
Lemma step_first s p adj size :
  selected s = None -> candidate min_adj p adj size ->
  selection (scan_step P nr_to_scan min_adj s p) = (Some p, size, adj, lowmem_delta s).
Proof.
  intros Hsel Hc. rewrite (step_candidate _ _ _ _ Hc). cbv zeta.
  rewrite probe_selected, Hsel. unfold selection. cbn.
  now rewrite probe_delta.
Qed.

Lemma step_lower s p cur adj size :
  selected s = Some cur -> candidate min_adj p adj size ->
  adj < selected_oom_adj s ->
  selection (scan_step P nr_to_scan min_adj s p) = selection s.
Proof.
  intros Hsel Hc Hlt. rewrite (step_candidate _ _ _ _ Hc). cbv zeta.
  rewrite probe_selected, Hsel, probe_oom_adj.
  rewrite (proj2 (Z.ltb_lt _ _) Hlt). apply probe_selection.
Qed.

Lemma step_higher s p cur adj size :
  selected s = Some cur -> candidate min_adj p adj size ->
  selected_oom_adj s < adj ->
  selected (scan_step P nr_to_scan min_adj s p) = Some p
  /\ selected_tasksize (scan_step P nr_to_scan min_adj s p) = size
  /\ selected_oom_adj (scan_step P nr_to_scan min_adj s p) = adj
  /\ lowmem_delta (scan_step P nr_to_scan min_adj s p) <= lowmem_delta s.
Proof.
  intros Hsel Hc Hgt. rewrite (step_candidate _ _ _ _ Hc). cbv zeta.
  rewrite probe_selected, Hsel, probe_oom_adj, probe_delta.
  rewrite (proj2 (Z.ltb_ge adj (selected_oom_adj s))) by lia.
  rewrite (proj2 (Z.eqb_neq adj (selected_oom_adj s))) by lia. cbn [andb].
  destruct (negb (lowmem_oldmethod P =? 0)).
  - cbn. rewrite probe_delta. repeat split; lia.
  - destruct (Z.leb_spec (size_delta P nr_to_scan size) (lowmem_delta s));
      cbn; rewrite ?probe_delta; repeat split; lia.
Qed.

Lemma step_equal_legacy s p cur adj size :
  lowmem_oldmethod P <> 0 ->
  selected s = Some cur -> candidate min_adj p adj size ->
  adj = selected_oom_adj s ->
  selection (scan_step P nr_to_scan min_adj s p) =
    if size <=? selected_tasksize s then selection s
    else (Some p, size, adj, lowmem_delta s).
Proof.
  intros Hold Hsel Hc Heq. rewrite (step_candidate _ _ _ _ Hc). cbv zeta.
  rewrite probe_selected, Hsel, probe_oom_adj, probe_tasksize.
  rewrite (proj2 (Z.ltb_ge adj (selected_oom_adj s))) by lia.
  rewrite (proj2 (Z.eqb_neq _ _) Hold). cbn [negb].
  rewrite (proj2 (Z.eqb_eq adj (selected_oom_adj s)) Heq). cbn [andb].
  destruct (size <=? selected_tasksize s); [apply probe_selection |].
  unfold selection. cbn. now rewrite probe_delta.
Qed.

Lemma step_equal_default s p cur adj size :
  lowmem_oldmethod P = 0 ->
  selected s = Some cur -> candidate min_adj p adj size ->
  adj = selected_oom_adj s ->
  selection (scan_step P nr_to_scan min_adj s p) =
    if lowmem_delta s <? size_delta P nr_to_scan size then selection s
    else (Some p, size, adj, size_delta P nr_to_scan size).
Proof.
  intros Hold Hsel Hc Heq. rewrite (step_candidate _ _ _ _ Hc). cbv zeta.
  rewrite probe_selected, Hsel, probe_oom_adj, probe_delta.
  rewrite (proj2 (Z.ltb_ge adj (selected_oom_adj s))) by lia.
  rewrite Hold. cbn [Z.eqb negb].
  rewrite (proj2 (Z.eqb_eq adj (selected_oom_adj s)) Heq). cbn [andb].
  destruct (Z.ltb_spec (lowmem_delta s) (size_delta P nr_to_scan size));
    [apply probe_selection |].
  rewrite (proj2 (Z.leb_le (size_delta P nr_to_scan size) (lowmem_delta s))) by lia.
  reflexivity.
Qed.

End ScanStep.

(** ** The selection over a whole scan *)

Section Selection.

Variables (P : module_params) (nr_to_scan min_adj : Z).

Lemma candidate_dec p :
  (exists adj size, candidate min_adj p adj size)
  \/ (forall adj size, ~ candidate min_adj p adj size).
Proof.
  unfold candidate.
  destruct (mm p) as [m |]; [| right; intros ? ? (? & ? & ? & _); discriminate].
  destruct (signal p) as [sig |];
    [| right; intros ? ? (? & ? & _ & ? & _); discriminate].
  destruct (Z_le_dec min_adj (oom_adj sig)) as [Hadj | Hadj].
  - destruct (Z_lt_dec 0 (to_int (get_mm_rss m))) as [Hsz | Hsz].
    + left. exists (oom_adj sig), (to_int (get_mm_rss m)), m, sig.
      repeat split; assumption.
    + right. intros ? ? (m' & sig' & Hm & Hs & -> & -> & _ & ?).
      injection Hm as <-. contradiction.
  - right. intros ? ? (m' & sig' & Hm & Hs & -> & -> & ? & _).
    injection Hs as <-. contradiction.
Qed.

(** What one iteration can do to the selection. *)
Lemma step_outcome s p :
  (selected (scan_step P nr_to_scan min_adj s p) = selected s
   /\ selected_tasksize (scan_step P nr_to_scan min_adj s p) = selected_tasksize s
   /\ selected_oom_adj (scan_step P nr_to_scan min_adj s p) = selected_oom_adj s
   /\ forall adj size, candidate min_adj p adj size ->
        selected s <> None /\ adj <= selected_oom_adj s)
  \/ (exists adj size, candidate min_adj p adj size
      /\ selected (scan_step P nr_to_scan min_adj s p) = Some p
      /\ selected_tasksize (scan_step P nr_to_scan min_adj s p) = size
      /\ selected_oom_adj (scan_step P nr_to_scan min_adj s p) = adj
      /\ (selected s <> None -> selected_oom_adj s <= adj)).
Proof.
  destruct (candidate_dec p) as [(adj & size & Hc) | Hno].
  - assert (Hkeep : selection (scan_step P nr_to_scan min_adj s p) = selection s ->
              selected s <> None -> adj <= selected_oom_adj s ->
              selected (scan_step P nr_to_scan min_adj s p) = selected s
              /\ selected_tasksize (scan_step P nr_to_scan min_adj s p) = selected_tasksize s
              /\ selected_oom_adj (scan_step P nr_to_scan min_adj s p) = selected_oom_adj s
              /\ forall adj size, candidate min_adj p adj size ->
                   selected s <> None /\ adj <= selected_oom_adj s).
    { unfold selection. intros [= H1 H2 H3 _] Hne Hle.
      split; [exact H1 |]. split; [exact H2 |]. split; [exact H3 |].
      intros adj' size' Hc'.
      destruct (candidate_functional _ _ _ _ _ _ Hc Hc') as [-> _].
      split; assumption. }
    assert (Htake : forall d, selection (scan_step P nr_to_scan min_adj s p) = (Some p, size, adj, d) ->
              (selected s <> None -> selected_oom_adj s <= adj) ->
              exists adj size, candidate min_adj p adj size
                /\ selected (scan_step P nr_to_scan min_adj s p) = Some p
                /\ selected_tasksize (scan_step P nr_to_scan min_adj s p) = size
                /\ selected_oom_adj (scan_step P nr_to_scan min_adj s p) = adj
                /\ (selected s <> None -> selected_oom_adj s <= adj)).
    { unfold selection. intros d [= H1 H2 H3 _] Hle.
      exists adj, size. auto. }
    destruct (selected s) as [cur |] eqn:Hsel.
    + destruct (Z.lt_trichotomy adj (selected_oom_adj s)) as [Hlt | [Heq | Hgt]].
      * left. apply Hkeep; [| discriminate | lia].
        exact (step_lower P nr_to_scan min_adj s p cur adj size Hsel Hc Hlt).
      * destruct (Z.eq_dec (lowmem_oldmethod P) 0) as [Hold | Hold].
        -- pose proof (step_equal_default P nr_to_scan min_adj s p cur adj size
                         Hold Hsel Hc Heq) as H.
           destruct (lowmem_delta s <? size_delta P nr_to_scan size).
           ++ left. apply Hkeep; [exact H | discriminate | lia].
           ++ right. apply (Htake _ H). intros _. lia.
        -- pose proof (step_equal_legacy P nr_to_scan min_adj s p cur adj size
                         Hold Hsel Hc Heq) as H.
           destruct (size <=? selected_tasksize s).
           ++ left. apply Hkeep; [exact H | discriminate | lia].
           ++ right. apply (Htake _ H). intros _. lia.
      * right.
        destruct (step_higher P nr_to_scan min_adj s p cur adj size Hsel Hc Hgt)
          as (H1 & H2 & H3 & _).
        exists adj, size. repeat split; auto. intros _. lia.
    + right.
      apply (Htake _ (step_first P nr_to_scan min_adj s p adj size Hsel Hc)).
      intros Hne. now contradiction Hne.
  - left. pose proof (step_not_candidate P nr_to_scan min_adj s p Hno) as H.
    unfold selection in H. injection H as H1 H2 H3 _.
    split; [exact H1 |]. split; [exact H2 |]. split; [exact H3 |].
    intros adj size Hc. exfalso. exact (Hno _ _ Hc).
Qed.

Lemma step_priority_monotone s p cur :
  selected s = Some cur ->
  selected (scan_step P nr_to_scan min_adj s p) <> None
  /\ selected_oom_adj s <= selected_oom_adj (scan_step P nr_to_scan min_adj s p).
Proof.
  intros Hsel.
  destruct (step_outcome s p) as [(H1 & _ & H3 & _) | (adj & size & _ & H1 & _ & H3 & Hle)].
  - rewrite H1, H3, Hsel. split; [discriminate | lia].
  - rewrite H1, H3. split; [discriminate |]. apply Hle. rewrite Hsel. discriminate.
Qed.

Lemma scan_step_inv seen s p :
  scan_inv min_adj seen s -> scan_inv min_adj (seen ++ [p]) (scan_step P nr_to_scan min_adj s p).
Proof.
  unfold scan_inv. intros Hinv.
  destruct (step_outcome s p)
    as [(H1 & H2 & H3 & Hp) | (adj & size & Hc & H1 & H2 & H3 & Hle)].
  - rewrite H1, H2, H3. destruct (selected s) as [cur |] eqn:Hsel.
    + destruct Hinv as (Hin & Hcur & Hmax). split; [| split]; auto.
      * apply elem_of_app. now left.
      * intros q adj size Hq Hc. apply elem_of_app in Hq as [Hq | Hq].
        -- eapply Hmax; eauto.
        -- apply list_elem_of_singleton in Hq as ->.
           now apply (Hp adj size).
    + intros q adj size Hq Hc. apply elem_of_app in Hq as [Hq | Hq].
      * eapply Hinv; eauto.
      * apply list_elem_of_singleton in Hq as ->.
        destruct (Hp adj size Hc) as [Hne _]. now contradiction Hne.
  - rewrite H1, H2, H3. split; [| split]; auto.
    + apply elem_of_app. right. now apply list_elem_of_singleton.
    + intros q adj' size' Hq Hc'. apply elem_of_app in Hq as [Hq | Hq].
      * destruct (selected s) as [cur |] eqn:Hsel.
        -- destruct Hinv as (_ & _ & Hmax).
           specialize (Hmax q adj' size' Hq Hc').
           assert (selected_oom_adj s <= adj) by (apply Hle; discriminate). lia.
        -- exfalso. eapply Hinv; eauto.
      * apply list_elem_of_singleton in Hq as ->.
        destruct (candidate_functional _ _ _ _ _ _ Hc Hc') as [-> _]. lia.
Qed.

Lemma lowmem_scan_inv ps seen s :
  scan_inv min_adj seen s ->
  scan_inv min_adj (seen ++ ps) (lowmem_scan P nr_to_scan min_adj s ps).
Proof.
  revert seen s. induction ps as [| p ps IH]; intros seen s Hinv; cbn.
  - now rewrite app_nil_r.
  - replace (seen ++ p :: ps) with ((seen ++ [p]) ++ ps)
      by (now rewrite <- app_assoc).
    apply IH, scan_step_inv, Hinv.
Qed.

Lemma scan_init_inv K ok : scan_inv min_adj [] (scan_init K min_adj ok).
Proof. unfold scan_inv. cbn. intros p adj size Hp. now apply elem_of_nil in Hp. Qed.

Lemma lowmem_scan_maximal K ok ps v :
  let s := lowmem_scan P nr_to_scan min_adj (scan_init K min_adj ok) ps in
  selected s = Some v ->
  v ∈ ps
  /\ candidate min_adj v (selected_oom_adj s) (selected_tasksize s)
  /\ forall p adj size, p ∈ ps -> candidate min_adj p adj size ->
       adj <= selected_oom_adj s.
Proof.
  intros s Hsel.
  pose proof (lowmem_scan_inv ps [] _ (scan_init_inv K ok)) as Hinv.
  unfold scan_inv in Hinv. fold s in Hinv. rewrite Hsel in Hinv.
  exact Hinv.
Qed.

Lemma lowmem_scan_none K ok ps :
  let s := lowmem_scan P nr_to_scan min_adj (scan_init K min_adj ok) ps in
  selected s = None ->
  forall p adj size, p ∈ ps -> ~ candidate min_adj p adj size.
Proof.
  intros s Hsel.
  pose proof (lowmem_scan_inv ps [] _ (scan_init_inv K ok)) as Hinv.
  unfold scan_inv in Hinv. fold s in Hinv. rewrite Hsel in Hinv.
  exact Hinv.
Qed.

End Selection.

(** The shape of a call, case by case. *)
Lemma lowmem_shrink_eq K st env n :
  lowmem_shrink K st env n =
  if guard_blocks st env then nothing_done 0 st
  else if (n <=? 0) || (shrink_min_adj K st env =? OOM_ADJUST_MAX K + 1)
  then nothing_done (reclaimable env) st
  else
    let s := shrink_scan K st env n in
    match selected s with
    | Some victim =>
        {| ret := to_int (reclaimable env - selected_tasksize s);
           state_after :=
             {| params := params st;
                lowmem_deathpending := Some (task_addr victim);
                lowmem_deathpending_timeout := to_uint (jiffies env + HZ K) |};
           trace := scan_trace s ++ [Ev_force_sig SIGKILL (task_addr victim)];
           killed := Some (victim, selected_tasksize s);
           overrun := ooms_overrun s |}
    | None =>
        {| ret := reclaimable env; state_after := st; trace := scan_trace s;
           killed := None; overrun := ooms_overrun s |}
    end.
Proof. reflexivity. Qed.

Lemma shrink_killed_inv K st env n v size :
  killed (lowmem_shrink K st env n) = Some (v, size) ->
  guard_blocks st env = false
  /\ 0 < n
  /\ shrink_min_adj K st env <> OOM_ADJUST_MAX K + 1
  /\ selected (shrink_scan K st env n) = Some v
  /\ selected_tasksize (shrink_scan K st env n) = size.
Proof.
  rewrite lowmem_shrink_eq.
  destruct (guard_blocks st env); [discriminate |].
  destruct (Z.leb_spec n 0); [discriminate |].
  destruct (Z.eqb_spec (shrink_min_adj K st env) (OOM_ADJUST_MAX K + 1));
    [discriminate |].
  cbn [orb]. cbv zeta.
  destruct (selected (shrink_scan K st env n)) as [victim |]; [| discriminate].
  cbn [killed]. intros [= -> <-]. auto.
Qed.

Lemma shrink_scans K st env n :
  guard_blocks st env = false -> 0 < n ->
  shrink_min_adj K st env <> OOM_ADJUST_MAX K + 1 ->
  lowmem_shrink K st env n =
    let s := shrink_scan K st env n in
    match selected s with
    | Some victim =>
        {| ret := to_int (reclaimable env - selected_tasksize s);
           state_after :=
             {| params := params st;
                lowmem_deathpending := Some (task_addr victim);
                lowmem_deathpending_timeout := to_uint (jiffies env + HZ K) |};
           trace := scan_trace s ++ [Ev_force_sig SIGKILL (task_addr victim)];
           killed := Some (victim, selected_tasksize s);
           overrun := ooms_overrun s |}
    | None =>
        {| ret := reclaimable env; state_after := st; trace := scan_trace s;
           killed := None; overrun := ooms_overrun s |}
    end.
Proof.
  intros Hg Hn Hmin. rewrite lowmem_shrink_eq, Hg.
  rewrite (proj2 (Z.leb_gt n 0) Hn).
  rewrite (proj2 (Z.eqb_neq _ _) Hmin). reflexivity.
Qed.

Lemma selection_eq s v size adj d :
  selection s = (v, size, adj, d) ->
  selected s = v /\ selected_tasksize s = size
  /\ selected_oom_adj s = adj /\ lowmem_delta s = d.
Proof. unfold selection. intros [= -> -> -> ->]. auto. Qed.

Lemma mk_task_candidate min_adj a adj rss :
  min_adj <= adj -> 0 < rss < half_modulus ->
  candidate min_adj (mk_task a adj rss) adj rss.
Proof.
  intros Hadj Hrss. exists {| get_mm_rss := rss |}, {| oom_adj := adj |}.
  cbn. repeat split; try lia.
  symmetry. apply to_int_id. unfold is_int. rewrite half_modulus_eq in *. lia.
Qed.

(** C4: once something is selected the selected priority never goes down
    - a candidate of strictly lower priority leaves the selection as it
    is, one of strictly higher priority replaces it whatever its size - so
    the task selected at the end of a scan, and hence the victim of a call,
    is a candidate whose priority is the largest among all candidates of
    the process table; a priority-12 task of 50 pages replaces a selected
    priority-6 task of 10000 pages in both modes. *)
Theorem selection_priority_maximal (P : module_params) (nr_to_scan min_adj : Z) :
  (forall s p cur, selected s = Some cur ->
     selected (scan_step P nr_to_scan min_adj s p) <> None
     /\ selected_oom_adj s <= selected_oom_adj (scan_step P nr_to_scan min_adj s p))
  /\ (forall s p cur adj size,
        selected s = Some cur -> candidate min_adj p adj size ->
        adj < selected_oom_adj s ->
        selection (scan_step P nr_to_scan min_adj s p) = selection s)
  /\ (forall s p cur adj size,
        selected s = Some cur -> candidate min_adj p adj size ->
        selected_oom_adj s < adj ->
        selected (scan_step P nr_to_scan min_adj s p) = Some p
        /\ selected_tasksize (scan_step P nr_to_scan min_adj s p) = size
        /\ selected_oom_adj (scan_step P nr_to_scan min_adj s p) = adj)
  /\ (forall K ok ps v,
        let s := lowmem_scan P nr_to_scan min_adj (scan_init K min_adj ok) ps in
        selected s = Some v ->
        v ∈ ps
        /\ candidate min_adj v (selected_oom_adj s) (selected_tasksize s)
        /\ forall p adj size, p ∈ ps -> candidate min_adj p adj size ->
             adj <= selected_oom_adj s)
  /\ (forall K st env v size,
        killed (lowmem_shrink K st env nr_to_scan) = Some (v, size) ->
        exists adj, candidate (shrink_min_adj K st env) v adj size
          /\ forall p adj' size', p ∈ processes env ->
               candidate (shrink_min_adj K st env) p adj' size' -> adj' <= adj)
  /\ (forall K ok a b, min_adj <= 6 ->
        selected (lowmem_scan P nr_to_scan min_adj (scan_init K min_adj ok)
                    [mk_task a 6 10000; mk_task b 12 50])
        = Some (mk_task b 12 50)).
Proof.
  split; [| split; [| split; [| split; [| split]]]].
  - intros s p cur. apply step_priority_monotone.
  - intros s p cur adj size. apply step_lower.
  - intros s p cur adj size Hsel Hc Hgt.
    destruct (step_higher P nr_to_scan min_adj s p cur adj size Hsel Hc Hgt)
      as (H1 & H2 & H3 & _). auto.
  - intros K ok ps v. apply lowmem_scan_maximal.
  - intros K st env v size Hk.
    destruct (shrink_killed_inv _ _ _ _ _ _ Hk) as (_ & _ & _ & Hsel & Hsz).
    destruct (lowmem_scan_maximal (params st) nr_to_scan (shrink_min_adj K st env)
                K (kzalloc_ok env) (processes env) v Hsel) as (_ & Hc & Hmax).
    fold (shrink_scan K st env nr_to_scan) in Hc, Hmax. rewrite Hsz in Hc.
    exists (selected_oom_adj (shrink_scan K st env nr_to_scan)). auto.
  - intros K ok a b Hmin. cbn [lowmem_scan fold_left].
    assert (Hc1 : candidate min_adj (mk_task a 6 10000) 6 10000)
      by (apply mk_task_candidate; [lia | rewrite half_modulus_eq; lia]).
    assert (Hc2 : candidate min_adj (mk_task b 12 50) 12 50)
      by (apply mk_task_candidate; [lia | rewrite half_modulus_eq; lia]).
    destruct (selection_eq _ _ _ _ _
                (step_first P nr_to_scan min_adj (scan_init K min_adj ok)
                   _ _ _ eq_refl Hc1)) as (Hs1 & _ & Ha1 & _).
    apply (step_higher P nr_to_scan min_adj _ _ _ _ _ Hs1 Hc2).
    rewrite Ha1. lia.
Qed.

Lemma selection_priority_maximal_witness :
  selected (lowmem_scan default_params 10 0 (scan_init stingray 0 true)
              [mk_task 1 6 10000; mk_task 2 12 50])
  = Some (mk_task 2 12 50).
Proof.
  destruct (selection_priority_maximal default_params 10 0)
    as (_ & _ & _ & _ & _ & Hex).
  apply Hex. lia.
Defined.

(** C7: in legacy mode ([lowmem_oldmethod] set) a candidate whose priority
    equals that of the current selection replaces it exactly when its size
    is strictly larger than the selected size; of two equal-priority
    candidates of 100 and 250 pages the 250-page one ends up selected, in
    either order. *)
Theorem legacy_equal_priority_prefers_larger (P : module_params)
    (nr_to_scan min_adj : Z) :
  lowmem_oldmethod P <> 0 ->
  (forall s p cur adj size,
     selected s = Some cur -> candidate min_adj p adj size ->
     adj = selected_oom_adj s ->
     (selected_tasksize s < size ->
        selected (scan_step P nr_to_scan min_adj s p) = Some p
        /\ selected_tasksize (scan_step P nr_to_scan min_adj s p) = size
        /\ selected_oom_adj (scan_step P nr_to_scan min_adj s p) = adj)
     /\ (size <= selected_tasksize s ->
        selected (scan_step P nr_to_scan min_adj s p) = Some cur
        /\ selected_tasksize (scan_step P nr_to_scan min_adj s p) = selected_tasksize s
        /\ selected_oom_adj (scan_step P nr_to_scan min_adj s p) = selected_oom_adj s))
  /\ (forall K ok a b adj, min_adj <= adj ->
        selected (lowmem_scan P nr_to_scan min_adj (scan_init K min_adj ok)
                    [mk_task a adj 100; mk_task b adj 250])
        = Some (mk_task b adj 250)
        /\ selected (lowmem_scan P nr_to_scan min_adj (scan_init K min_adj ok)
                    [mk_task b adj 250; mk_task a adj 100])
        = Some (mk_task b adj 250)).
Proof.
  intros Hold.
  assert (Hstep : forall s p cur adj size,
     selected s = Some cur -> candidate min_adj p adj size ->
     adj = selected_oom_adj s ->
     (selected_tasksize s < size ->
        selected (scan_step P nr_to_scan min_adj s p) = Some p
        /\ selected_tasksize (scan_step P nr_to_scan min_adj s p) = size
        /\ selected_oom_adj (scan_step P nr_to_scan min_adj s p) = adj)
     /\ (size <= selected_tasksize s ->
        selected (scan_step P nr_to_scan min_adj s p) = Some cur
        /\ selected_tasksize (scan_step P nr_to_scan min_adj s p) = selected_tasksize s
        /\ selected_oom_adj (scan_step P nr_to_scan min_adj s p) = selected_oom_adj s)).
  { intros s p cur adj size Hsel Hc Heq.
    pose proof (step_equal_legacy P nr_to_scan min_adj s p cur adj size
                  Hold Hsel Hc Heq) as H.
    split; intros Hcmp.
    - rewrite (proj2 (Z.leb_gt size (selected_tasksize s))) in H by lia.
      apply selection_eq in H. tauto.
    - rewrite (proj2 (Z.leb_le size (selected_tasksize s))) in H by lia.
      unfold selection in H. injection H as H1 H2 H3 _.
      rewrite H1, H2, H3. auto. }
  split; [exact Hstep |].
  intros K ok a b adj Hadj.
  assert (Hca : candidate min_adj (mk_task a adj 100) adj 100)
    by (apply mk_task_candidate; [lia | rewrite half_modulus_eq; lia]).
  assert (Hcb : candidate min_adj (mk_task b adj 250) adj 250)
    by (apply mk_task_candidate; [lia | rewrite half_modulus_eq; lia]).
  cbn [lowmem_scan fold_left]. split.
  - destruct (selection_eq _ _ _ _ _
                (step_first P nr_to_scan min_adj (scan_init K min_adj ok)
                   _ _ _ eq_refl Hca)) as (Hs1 & Hz1 & Ha1 & _).
    destruct (Hstep _ (mk_task b adj 250) _ adj 250 Hs1 Hcb (eq_sym Ha1))
      as [Hgt _].
    apply Hgt. rewrite Hz1. lia.
  - destruct (selection_eq _ _ _ _ _
                (step_first P nr_to_scan min_adj (scan_init K min_adj ok)
                   _ _ _ eq_refl Hcb)) as (Hs1 & Hz1 & Ha1 & _).
    destruct (Hstep _ (mk_task a adj 100) _ adj 100 Hs1 Hca (eq_sym Ha1))
      as [_ Hle].
    apply Hle. rewrite Hz1. lia.
Qed.

Lemma legacy_equal_priority_prefers_larger_witness :
  selected (lowmem_scan legacy_params 10 0 (scan_init stingray 0 true)
              [mk_task 1 6 100; mk_task 2 6 250]) = Some (mk_task 2 6 250)
  /\ selected (lowmem_scan legacy_params 10 0 (scan_init stingray 0 true)
              [mk_task 2 6 250; mk_task 1 6 100]) = Some (mk_task 2 6 250).
Proof.
  destruct (legacy_equal_priority_prefers_larger legacy_params 10 0) as [_ Hex].
  - cbn. lia.
  - apply Hex. lia.
Defined.

(** ** The whole call *)

(** Every iteration takes the task lock once and logs nothing else. *)
Lemma step_trace P nr min_adj s p :
  scan_trace (scan_step P nr min_adj s p)
  = scan_trace s ++ [Ev_task_lock (task_addr p)].
Proof.
  unfold scan_step.
  destruct (mm p) as [m |]; [| reflexivity].
  destruct (signal p) as [sig |]; [| reflexivity].
  cbv zeta. fold (probe s p (oom_adj sig)).
  repeat match goal with
         | |- context [if ?c then _ else _] => destruct c
         | |- context [match selected ?x with _ => _ end] => destruct (selected x)
         end; cbn [scan_trace select set_lowmem_delta]; apply probe_trace.
Qed.

Lemma lowmem_scan_trace P nr min_adj ps s :
  scan_trace (lowmem_scan P nr min_adj s ps)
  = scan_trace s ++ map (fun p => Ev_task_lock (task_addr p)) ps.
Proof.
  revert s. induction ps as [| p ps IH]; intros s; cbn.
  - now rewrite app_nil_r.
  - unfold lowmem_scan in IH. rewrite IH, step_trace, <- app_assoc. reflexivity.
Qed.

(** The value returned on the kill path. *)
Lemma shrink_kill_return K st env n v size :
  killed (lowmem_shrink K st env n) = Some (v, size) ->
  (exists m, mm v = Some m /\ size = to_int (get_mm_rss m) /\ 0 < size)
  /\ ret (lowmem_shrink K st env n) = to_int (reclaimable env - size)
  /\ (0 <= reclaimable env ->
      ret (lowmem_shrink K st env n) = reclaimable env - size).
Proof.
  intros Hk.
  destruct (shrink_killed_inv _ _ _ _ _ _ Hk) as (Hg & Hn & Hmin & Hsel & Hsz).
  destruct (lowmem_scan_maximal (params st) n (shrink_min_adj K st env) K
              (kzalloc_ok env) (processes env) v Hsel)
    as (_ & (m & sig & Hm & _ & _ & Hsize & _ & Hpos) & _).
  fold (shrink_scan K st env n) in Hsize, Hpos. rewrite Hsz in Hsize, Hpos.
  rewrite (shrink_scans _ _ _ _ Hg Hn Hmin). cbv zeta.
  rewrite Hsel, Hsz. cbn [ret].
  split; [exists m; auto |].
  split; [reflexivity |].
  intros Hrem. apply to_int_id.
  pose proof (to_int_range (lru_pages env)) as Hr.
  rewrite <- reclaimable_wraps in Hr.
  pose proof (to_int_range (get_mm_rss m)) as Hs. rewrite <- Hsize in Hs.
  unfold is_int in *. lia.
Qed.

(** C5: when a call selects a victim it records that task as pending with
    the deadline [jiffies + HZ] (one second), leaves the parameters alone,
    sends SIGKILL as its last action after having inspected every process
    once, and returns the reclaimable estimate minus the victim's resident
    size (computed in an [int]; exact whenever the estimate is not
    negative). *)
Theorem kill_arms_guard K st env n v size :
  killed (lowmem_shrink K st env n) = Some (v, size) ->
  let r := lowmem_shrink K st env n in
  state_after r =
    {| params := params st;
       lowmem_deathpending := Some (task_addr v);
       lowmem_deathpending_timeout := to_uint (jiffies env + HZ K) |}
  /\ trace r = map (fun p => Ev_task_lock (task_addr p)) (processes env)
               ++ [Ev_force_sig SIGKILL (task_addr v)]
  /\ v ∈ processes env
  /\ (exists m, mm v = Some m /\ size = to_int (get_mm_rss m) /\ 0 < size)
  /\ ret r = to_int (reclaimable env - size)
  /\ (0 <= reclaimable env -> ret r = reclaimable env - size)
  /\ (0 <= lru_pages env < half_modulus -> ret r = lru_pages env - size).
Proof.
  intros Hk. cbv zeta.
  destruct (shrink_kill_return _ _ _ _ _ _ Hk) as (Hfoot & Hret & Hexact).
  destruct (shrink_killed_inv _ _ _ _ _ _ Hk) as (Hg & Hn & Hmin & Hsel & Hsz).
  destruct (lowmem_scan_maximal (params st) n (shrink_min_adj K st env) K
              (kzalloc_ok env) (processes env) v Hsel) as (Hin & _).
  split; [| split; [| split; [| split; [| split; [| split]]]]];
    try assumption.
  - rewrite (shrink_scans _ _ _ _ Hg Hn Hmin). cbv zeta.
    rewrite Hsel. reflexivity.
  - rewrite (shrink_scans _ _ _ _ Hg Hn Hmin). cbv zeta.
    rewrite Hsel. cbn [trace]. unfold shrink_scan.
    rewrite lowmem_scan_trace. reflexivity.
  - intros Hlru. rewrite <- (reclaimable_exact env Hlru).
    apply Hexact. rewrite (reclaimable_exact env Hlru). lia.
Qed.

Lemma kill_arms_guard_witness :
  state_after (lowmem_shrink stingray initial_state
                 (mk_env 5000 1000 1000 1000 [mk_task 1 6 300]) 10)
  = pending_state default_params 1 5100
  /\ ret (lowmem_shrink stingray initial_state
            (mk_env 5000 1000 1000 1000 [mk_task 1 6 300]) 10) = 3700.
Proof.
  destruct (kill_arms_guard stingray initial_state
              (mk_env 5000 1000 1000 1000 [mk_task 1 6 300]) 10
              (mk_task 1 6 300) 300 eq_refl)
    as (Hst & _ & _ & _ & _ & _ & Hret).
  split.
  - rewrite Hst. reflexivity.
  - rewrite Hret; [reflexivity | vm_compute; split; [discriminate | reflexivity]].
Defined.

(** C9 (as the code has it): the returned value is a signed [int].  With
    LRU counters whose sum fits an [int], a call that kills nothing returns
    0 or that sum, hence a non-negative value; a call that kills returns
    the sum minus the victim's resident size, which is non-negative exactly
    when the victim is no larger than the sum. *)
Theorem shrink_return_sign K st env n :
  0 <= lru_pages env < half_modulus ->
  let r := lowmem_shrink K st env n in
  match killed r with
  | None => (ret r = 0 \/ ret r = lru_pages env) /\ 0 <= ret r
  | Some (v, size) =>
      ret r = lru_pages env - size /\ (0 <= ret r <-> size <= lru_pages env)
  end.
Proof.
  intros Hlru. cbv zeta.
  destruct (killed (lowmem_shrink K st env n)) as [[v size] |] eqn:Hk.
  - destruct (shrink_kill_return K st env n v size Hk) as (_ & _ & Hret).
    rewrite Hret by (rewrite (reclaimable_exact env Hlru); lia).
    rewrite (reclaimable_exact env Hlru). split; [reflexivity | lia].
  - revert Hk. rewrite lowmem_shrink_eq.
    destruct (guard_blocks st env); [cbn; intros _; lia |].
    destruct ((n <=? 0) || (shrink_min_adj K st env =? OOM_ADJUST_MAX K + 1)).
    + cbn. rewrite (reclaimable_exact env Hlru). intros _. lia.
    + cbv zeta. destruct (selected (shrink_scan K st env n)); [discriminate |].
      cbn. rewrite (reclaimable_exact env Hlru). intros _. lia.
Qed.

Lemma shrink_return_sign_witness :
  ret (lowmem_shrink stingray initial_state
         (mk_env 5000 1000 1000 1000 [mk_task 1 6 300]) 10) = 4000 - 300.
Proof.
  assert (Hlru : 0 <= lru_pages (mk_env 5000 1000 1000 1000 [mk_task 1 6 300])
                 < half_modulus)
    by (vm_compute; split; [discriminate | reflexivity]).
  pose proof (shrink_return_sign stingray initial_state
                (mk_env 5000 1000 1000 1000 [mk_task 1 6 300]) 10 Hlru) as H.
  cbv zeta in H.
  change (killed (lowmem_shrink stingray initial_state
            (mk_env 5000 1000 1000 1000 [mk_task 1 6 300]) 10))
    with (Some (mk_task 1 6 300, 300)) in H.
  destruct H as [H _]. exact H.
Defined.

(** C9, counterexample to a non-negative return value: the LRU lists hold
    400 pages, the only candidate has 500 resident pages, and the call
    returns -100. *)
Lemma shrink_return_negative :
  killed (lowmem_shrink stingray initial_state
            (mk_env 5000 1000 150 100 [mk_task 1 6 500]) 10)
    = Some (mk_task 1 6 500, 500)
  /\ reclaimable (mk_env 5000 1000 150 100 [mk_task 1 6 500]) = 400
  /\ ret (lowmem_shrink stingray initial_state
            (mk_env 5000 1000 150 100 [mk_task 1 6 500]) 10) = -100
  /\ ~ 0 <= ret (lowmem_shrink stingray initial_state
                   (mk_env 5000 1000 150 100 [mk_task 1 6 500]) 10).
Proof.
  repeat split. vm_compute. intros H. apply H. reflexivity.
Qed.

(** C1, evaluated on the code: with [nr_to_scan = 10] and the default
    multiplier 36, two priority-6 candidates of 300 and 500 pages in that
    order end with the 500-page task killed, because the first acceptance
    leaves [lowmem_delta] at its initial 262144 instead of 60; in the
    opposite order the 300-page task is killed. *)
Theorem default_mode_first_candidate_not_seeded :
  lowmem_delta
    (scan_step default_params 10 0 (scan_init stingray 0 true) (mk_task 1 6 300))
    = 262144
  /\ size_delta default_params 10 300 = 60
  /\ size_delta default_params 10 500 = 140
  /\ killed (lowmem_shrink stingray initial_state
               (mk_env 5000 1000 1000 1000 [mk_task 1 6 300; mk_task 2 6 500]) 10)
     = Some (mk_task 2 6 500, 500)
  /\ killed (lowmem_shrink stingray initial_state
               (mk_env 5000 1000 1000 1000 [mk_task 2 6 500; mk_task 1 6 300]) 10)
     = Some (mk_task 1 6 300, 300).
Proof. repeat split. Qed.

(** ** The diagnostic histogram *)

Lemma count_oom_adj_hist s adj :
  hist_ok s ->
  hist_ok (count_oom_adj s adj)
  /\ ooms_overrun (count_oom_adj s adj)
     = ooms_overrun s || ((-1 <? adj) && (19 <? adj)).
Proof.
  intros (buf & Hbuf & Hlen). unfold hist_ok, count_oom_adj. rewrite Hbuf.
  destruct (Z.ltb_spec (-1) adj) as [Hadj | Hadj]; cbn [andb].
  - unfold ooms_seen_incr.
    destruct (buf !! Z.to_nat adj) as [c |] eqn:Hl; cbn [ooms_seen ooms_overrun].
    + apply lookup_lt_Some in Hl. unfold OOMS_SEEN_LEN in *.
      rewrite (proj2 (Z.ltb_ge 19 adj)) by lia. split; [| reflexivity].
      eexists. split; [reflexivity |]. now rewrite length_insert.
    + apply lookup_ge_None in Hl. unfold OOMS_SEEN_LEN in *.
      rewrite (proj2 (Z.ltb_lt 19 adj)) by lia. split; [| reflexivity].
      exists buf. auto.
  - rewrite orb_false_r. split; [| reflexivity]. exists buf. auto.
Qed.

Lemma step_hist P nr min_adj s p :
  hist_ok s ->
  hist_ok (scan_step P nr min_adj s p)
  /\ ooms_overrun (scan_step P nr min_adj s p) = ooms_overrun s || overruns p.
Proof.
  intros Hs. unfold scan_step, overruns.
  assert (Hlog : hist_ok (log_task_lock s p)) by exact Hs.
  destruct (mm p) as [m |]; [| now rewrite orb_false_r].
  destruct (signal p) as [sig |]; [| now rewrite orb_false_r].
  cbv zeta.
  destruct (count_oom_adj_hist (log_task_lock s p) (oom_adj sig) Hlog)
    as [Hok Hover].
  cbn [ooms_overrun log_task_lock] in Hover. rewrite <- Hover.
  unfold hist_ok in *.
  repeat match goal with
         | |- context [if ?c then _ else _] => destruct c
         | |- context [match selected ?x with _ => _ end] => destruct (selected x)
         end; cbn [ooms_seen ooms_overrun select set_lowmem_delta]; auto.
Qed.

Lemma lowmem_scan_hist P nr min_adj ps s :
  hist_ok s ->
  hist_ok (lowmem_scan P nr min_adj s ps)
  /\ ooms_overrun (lowmem_scan P nr min_adj s ps)
     = ooms_overrun s || existsb overruns ps.
Proof.
  revert s. induction ps as [| p ps IH]; intros s Hs; cbn.
  - now rewrite orb_false_r.
  - destruct (step_hist P nr min_adj s p Hs) as [Hok Hover].
    destruct (IH _ Hok) as [Hok' Hover'].
    unfold lowmem_scan in *. rewrite Hover', Hover, orb_assoc. auto.
Qed.

Lemma overruns_observed p :
  overruns p = true <-> exists adj, observed p adj /\ -1 < adj /\ 19 < adj.
Proof.
  unfold overruns, observed. split.
  - destruct (mm p) as [m |]; [| discriminate].
    destruct (signal p) as [sig |]; [| discriminate].
    rewrite andb_true_iff, !Z.ltb_lt. intros [? ?].
    exists (oom_adj sig). split; [exists m, sig; auto | lia].
  - intros (adj & (m & sig & -> & -> & ->) & ? & ?).
    rewrite andb_true_iff, !Z.ltb_lt. lia.
Qed.

(** Without a buffer nothing is counted and nothing can be overrun. *)
Lemma step_no_hist P nr min_adj s p :
  ooms_seen s = None ->
  ooms_seen (scan_step P nr min_adj s p) = None
  /\ ooms_overrun (scan_step P nr min_adj s p) = ooms_overrun s.
Proof.
  intros Hs. unfold scan_step.
  destruct (mm p) as [m |]; [| auto].
  destruct (signal p) as [sig |]; [| auto].
  cbv zeta. unfold count_oom_adj. cbn [ooms_seen log_task_lock]. rewrite Hs.
  repeat match goal with
         | |- context [if ?c then _ else _] => destruct c
         | |- context [match selected ?x with _ => _ end] => destruct (selected x)
         end; cbn [ooms_seen ooms_overrun select set_lowmem_delta log_task_lock];
    auto.
Qed.

Lemma lowmem_scan_no_hist P nr min_adj ps s :
  ooms_seen s = None ->
  ooms_overrun (lowmem_scan P nr min_adj s ps) = ooms_overrun s.
Proof.
  revert s. induction ps as [| p ps IH]; intros s Hs; cbn; [reflexivity |].
  destruct (step_no_hist P nr min_adj s p Hs) as [Hnone Hover].
  unfold lowmem_scan in IH. now rewrite (IH _ Hnone).
Qed.

Lemma scan_init_hist K min_adj : hist_ok (scan_init K min_adj true).
Proof. eexists. split; reflexivity. Qed.

(** Which slot a count goes to, and what a scan leaves in each slot. *)
Lemma to_int_add_to_int a b : to_int (to_int a + b) = to_int (a + b).
Proof.
  apply to_int_congr.
  rewrite <- (to_uint_add_l (to_int a) b), to_uint_to_int.
  apply to_uint_add_l.
Qed.

Lemma count_oom_adj_lookup s adj buf i c :
  ooms_seen s = Some buf -> buf !! i = Some c ->
  exists buf', ooms_seen (count_oom_adj s adj) = Some buf'
    /\ buf' !! i
       = Some (if (-1 <? adj) && (Z.to_nat adj =? i)%nat then to_int (c + 1) else c).
Proof.
  intros Hbuf Hi. unfold count_oom_adj. rewrite Hbuf.
  destruct (-1 <? adj); cbn [andb]; [| eauto].
  unfold ooms_seen_incr.
  destruct (Nat.eqb_spec (Z.to_nat adj) i) as [-> | Hne].
  - rewrite Hi. cbn [ooms_seen]. eexists. split; [reflexivity |].
    apply list_lookup_insert_eq. now apply lookup_lt_Some in Hi.
  - destruct (buf !! Z.to_nat adj); cbn [ooms_seen]; eexists;
      (split; [reflexivity |]); [| exact Hi].
    now rewrite list_lookup_insert_ne.
Qed.

Lemma step_ooms_seen P nr min_adj s p :
  ooms_seen (scan_step P nr min_adj s p)
  = match mm p, signal p with
    | Some _, Some sig => ooms_seen (count_oom_adj s (oom_adj sig))
    | _, _ => ooms_seen s
    end.
Proof.
  unfold scan_step.
  destruct (mm p) as [m |]; [| reflexivity].
  destruct (signal p) as [sig |]; [| reflexivity].
  cbv zeta.
  assert (Hlog : ooms_seen (count_oom_adj (log_task_lock s p) (oom_adj sig))
                 = ooms_seen (count_oom_adj s (oom_adj sig))).
  { unfold count_oom_adj. cbn [ooms_seen log_task_lock].
    destruct (ooms_seen s); [| reflexivity].
    destruct (-1 <? oom_adj sig); [| reflexivity].
    now destruct (ooms_seen_incr l (oom_adj sig)). }
  rewrite <- Hlog.
  repeat match goal with
         | |- context [if ?c then _ else _] => destruct c
         | |- context [match selected ?x with _ => _ end] => destruct (selected x)
         end; reflexivity.
Qed.

Lemma step_tally P nr min_adj s p buf i c :
  ooms_seen s = Some buf -> buf !! i = Some c ->
  exists buf', ooms_seen (scan_step P nr min_adj s p) = Some buf'
    /\ buf' !! i = Some (if counted_at i p then to_int (c + 1) else c).
Proof.
  intros Hbuf Hi. rewrite step_ooms_seen. unfold counted_at.
  destruct (mm p) as [m |]; [| eauto].
  destruct (signal p) as [sig |]; [| eauto].
  eapply count_oom_adj_lookup; eauto.
Qed.

Lemma scan_tally P nr min_adj ps s buf i x :
  ooms_seen s = Some buf -> buf !! i = Some (to_int x) ->
  exists buf', ooms_seen (lowmem_scan P nr min_adj s ps) = Some buf'
    /\ buf' !! i = Some (to_int (x + tally i ps)).
Proof.
  revert s buf x. induction ps as [| p ps IH]; intros s buf x Hbuf Hi;
    cbn [lowmem_scan fold_left tally].
  - exists buf. split; [exact Hbuf |]. now rewrite Z.add_0_r.
  - destruct (step_tally P nr min_adj s p buf i (to_int x) Hbuf Hi)
      as (buf1 & Hbuf1 & Hi1).
    fold (lowmem_scan P nr min_adj (scan_step P nr min_adj s p) ps).
    destruct (counted_at i p).
    + rewrite to_int_add_to_int in Hi1.
      destruct (IH _ buf1 (x + 1) Hbuf1 Hi1) as (buf' & Hbuf' & Hi').
      exists buf'. split; [exact Hbuf' |]. rewrite Hi'. do 2 f_equal. lia.
    + destruct (IH _ buf1 x Hbuf1 Hi1) as (buf' & Hbuf' & Hi').
      exists buf'. split; [exact Hbuf' |]. rewrite Hi'. do 2 f_equal.
Qed.

Lemma tally_range i ps : 0 <= tally i ps <= Z.of_nat (length ps).
Proof.
  induction ps as [| p ps IH]; cbn [tally length]; [lia |].
  destruct (counted_at i p); lia.
Qed.

(** C10: with the buffer allocated, the count is skipped for
    [oom_adj <= -1] and otherwise stores at index [oom_adj] with no test
    against the 20 slots: for [0 <= oom_adj <= 19] slot [oom_adj] itself
    is incremented and no other, for [oom_adj > 19] the store falls
    outside the buffer.  After a scan slot [i] holds the number of
    processes read with [oom_adj = i], and a scan keeps every store inside
    the buffer if and only if every non-negative [oom_adj] it reads is at
    most 19.  (When the allocation fails there is no buffer and no
    store.) *)
Theorem ooms_seen_unchecked_upper_bound K st env n :
  (forall s adj, hist_ok s ->
     (adj <= -1 -> count_oom_adj s adj = s)
     /\ (-1 < adj ->
         ooms_overrun (count_oom_adj s adj) = ooms_overrun s || (19 <? adj)))
  /\ (forall s buf adj,
        ooms_seen s = Some buf -> length buf = OOMS_SEEN_LEN ->
        (0 <= adj <= 19 ->
           exists c, buf !! Z.to_nat adj = Some c
             /\ ooms_seen (count_oom_adj s adj)
                = Some (<[ Z.to_nat adj := to_int (c + 1) ]> buf))
        /\ (19 < adj -> ooms_seen (count_oom_adj s adj) = Some buf))
  /\ (forall P nr min_adj ps i, (i < OOMS_SEEN_LEN)%nat ->
        exists buf,
          ooms_seen (lowmem_scan P nr min_adj (scan_init K min_adj true) ps)
          = Some buf
          /\ buf !! i = Some (to_int (tally i ps)))
  /\ (guard_blocks st env = false -> 0 < n ->
      shrink_min_adj K st env <> OOM_ADJUST_MAX K + 1 ->
      kzalloc_ok env = true ->
      (overrun (lowmem_shrink K st env n) = false <->
       forall p adj, p ∈ processes env -> observed p adj -> -1 < adj -> adj <= 19))
  /\ (kzalloc_ok env = false -> overrun (lowmem_shrink K st env n) = false).
Proof.
  split; [| split; [| split; [| split]]].
  - intros s adj Hs. split.
    + intros Hadj. destruct Hs as (buf & Hbuf & _).
      unfold count_oom_adj. rewrite Hbuf.
      now rewrite (proj2 (Z.ltb_ge (-1) adj)) by lia.
    + intros Hadj. destruct (count_oom_adj_hist s adj Hs) as [_ ->].
      now rewrite (proj2 (Z.ltb_lt (-1) adj) Hadj).
  - intros s buf adj Hbuf Hlen. unfold OOMS_SEEN_LEN in Hlen. split.
    + intros Hadj.
      assert (is_Some (buf !! Z.to_nat adj)) as [c Hc]
        by (apply lookup_lt_is_Some; lia).
      exists c. split; [exact Hc |].
      unfold count_oom_adj. rewrite Hbuf.
      rewrite (proj2 (Z.ltb_lt (-1) adj)) by lia.
      unfold ooms_seen_incr. rewrite Hc. reflexivity.
    + intros Hadj.
      assert (Hnone : buf !! Z.to_nat adj = None)
        by (apply lookup_ge_None; lia).
      unfold count_oom_adj. rewrite Hbuf.
      rewrite (proj2 (Z.ltb_lt (-1) adj)) by lia.
      unfold ooms_seen_incr. rewrite Hnone. reflexivity.
  - intros P nr min_adj ps i Hi.
    apply (scan_tally P nr min_adj ps (scan_init K min_adj true)
             (replicate OOMS_SEEN_LEN 0) i 0 eq_refl).
    now apply lookup_replicate_2.
  - intros Hg Hn Hmin Halloc.
    assert (Hov : overrun (lowmem_shrink K st env n)
                  = existsb overruns (processes env)).
    { rewrite (shrink_scans _ _ _ _ Hg Hn Hmin). cbv zeta.
      assert (ooms_overrun (shrink_scan K st env n)
              = existsb overruns (processes env)) as <-.
      { unfold shrink_scan. rewrite Halloc.
        destruct (lowmem_scan_hist (params st) n (shrink_min_adj K st env)
                    (processes env) _ (scan_init_hist K (shrink_min_adj K st env)))
          as [_ ->]. reflexivity. }
      now destruct (selected (shrink_scan K st env n)). }
    rewrite Hov. split.
    + intros Hnone p adj Hp Hobs Hadj.
      destruct (Z_le_dec adj 19) as [| Hbig]; [assumption | exfalso].
      assert (Hex : existsb overruns (processes env) = true).
      { apply existsb_exists. exists p. split.
        - now apply list_elem_of_In.
        - apply overruns_observed. exists adj. split; [assumption | lia]. }
      congruence.
    + intros Hall. destruct (existsb overruns (processes env)) eqn:Hex;
        [exfalso | reflexivity].
      apply existsb_exists in Hex as (p & Hp & Hover).
      apply overruns_observed in Hover as (adj & Hobs & Hadj & Hbig).
      apply list_elem_of_In in Hp.
      specialize (Hall p adj Hp Hobs Hadj). lia.
  - intros Halloc. rewrite lowmem_shrink_eq.
    destruct (guard_blocks st env); [reflexivity |].
    destruct ((n <=? 0) || (shrink_min_adj K st env =? OOM_ADJUST_MAX K + 1));
      [reflexivity |].
    cbv zeta.
    assert (ooms_overrun (shrink_scan K st env n) = false) as Hov.
    { unfold shrink_scan. rewrite Halloc.
      now rewrite lowmem_scan_no_hist by reflexivity. }
    destruct (selected (shrink_scan K st env n)); exact Hov.
Qed.

Lemma ooms_seen_unchecked_upper_bound_witness :
  overrun (lowmem_shrink stingray initial_state
             (mk_env 5000 1000 1000 1000 [mk_task 1 6 300; mk_task 2 15 40]) 10)
  = false.
Proof.
  destruct (ooms_seen_unchecked_upper_bound stingray initial_state
              (mk_env 5000 1000 1000 1000 [mk_task 1 6 300; mk_task 2 15 40]) 10)
    as (_ & _ & _ & Hiff & _).
  apply Hiff; [reflexivity | lia | vm_compute; discriminate | reflexivity |].
  intros p adj Hp (m & sig & _ & Hsig & ->) _.
  apply elem_of_cons in Hp as [-> | Hp]; [injection Hsig as <-; cbn; lia |].
  apply elem_of_cons in Hp as [-> | Hp]; [injection Hsig as <-; cbn; lia |].
  now apply elem_of_nil in Hp.
Defined.

(** * Further properties of the driver *)

(** ** Thresholds and memory state *)

Lemma to_uint_idem x : to_uint (to_uint x) = to_uint x.
Proof. unfold to_uint. rewrite Z.mod_mod; [reflexivity | discriminate]. Qed.

Lemma min_adj_loop_to_uint P a b n i d :
  min_adj_loop P a b n i d = min_adj_loop P (to_uint a) (to_uint b) n i d.
Proof.
  revert i. induction n as [| n IH]; intros i; cbn [min_adj_loop]; [reflexivity |].
  unfold below_minfree. rewrite !to_uint_idem, IH. reflexivity.
Qed.

Lemma shrink_min_adj_counts K st env :
  is_uint (free_pages env) -> is_uint (file_pages env) ->
  shrink_min_adj K st env
  = resolve_min_adj K (params st) (free_pages env) (file_pages env).
Proof.
  intros Hfree Hfile. unfold shrink_min_adj, resolve_min_adj.
  rewrite min_adj_loop_to_uint.
  rewrite (min_adj_loop_to_uint _ (free_pages env) (file_pages env)).
  unfold free_pages, file_pages.
  now rewrite to_uint_to_int, to_uint_to_int, to_uint_idem.
Qed.

(** The outcome of the threshold loop, read on the two tier sequences. *)
Lemma resolve_min_adj_cases K P free file :
  params_wf P -> is_uint free -> is_uint file ->
  (exists i c, (i < tier_count P)%nat
     /\ tier_matches P free file i
     /\ (forall j, (j < i)%nat -> ~ tier_matches P free file j)
     /\ tiers P !! i = Some c
     /\ resolve_min_adj K P free file = c)
  \/ ((forall i, (i < tier_count P)%nat -> ~ tier_matches P free file i)
      /\ resolve_min_adj K P free file = OOM_ADJUST_MAX K + 1).
Proof.
  intros Hwf Hfree Hfile.
  unfold resolve_min_adj. rewrite (tier_count_effective _ Hwf).
  destruct (min_adj_loop_first P free file (tier_count P) 0 (OOM_ADJUST_MAX K + 1))
    as [(k & Hk & Hm & Hlt & Hr) | (Hnone & Hr)].
  - left.
    assert (is_Some (tiers P !! k)) as [c Hc].
    { apply lookup_lt_is_Some. unfold tier_count in Hk. lia. }
    exists k, c.
    split; [lia |].
    split; [apply below_minfree_matches; auto; lia |].
    split.
    { intros j Hj Hmj. apply below_minfree_matches in Hmj; auto; try lia.
      rewrite Hlt in Hmj; [discriminate | lia]. }
    split; [exact Hc |].
    rewrite Hr. apply list_lookup_total_correct.
    rewrite <- Hc. symmetry. apply tiers_lookup. lia.
  - right. split; [| exact Hr].
    intros i Hi Hmi. apply below_minfree_matches in Hmi; auto.
    rewrite Hnone in Hmi; [discriminate | lia].
Qed.

(** X1: when the free pages or the file pages reach the minimum of every
    configured tier, a call that is not blocked by the guard inspects no
    process, kills nothing, leaves the state alone and returns the
    reclaimable estimate, whatever [nr_to_scan] is. *)
Theorem adequate_memory_never_kills K st env n :
  params_wf (params st) ->
  is_uint (free_pages env) -> is_uint (file_pages env) ->
  (forall i m, (i < tier_count (params st))%nat ->
     minima (params st) !! i = Some m ->
     m <= free_pages env \/ m <= file_pages env) ->
  guard_blocks st env = false ->
  lowmem_shrink K st env n = nothing_done (reclaimable env) st.
Proof.
  intros Hwf Hfree Hfile Hall Hg.
  rewrite lowmem_shrink_eq, Hg, (shrink_min_adj_counts K st env Hfree Hfile).
  destruct (resolve_min_adj_cases K (params st) _ _ Hwf Hfree Hfile)
    as [(i & c & Hi & (m & Hm & Hlt1 & Hlt2) & _) | (_ & ->)].
  - destruct (Hall i m Hi Hm); lia.
  - rewrite Z.eqb_refl, orb_true_r. reflexivity.
Qed.

Lemma adequate_memory_never_kills_witness :
  lowmem_shrink stingray initial_state
    (mk_env 5000 20000 30000 1000 [mk_task 1 15 300]) 128
  = nothing_done 4000 initial_state.
Proof.
  rewrite (adequate_memory_never_kills stingray initial_state
             (mk_env 5000 20000 30000 1000 [mk_task 1 15 300]) 128).
  - reflexivity.
  - exact default_params_wf.
  - vm_compute. split; [discriminate | reflexivity].
  - vm_compute. split; [discriminate | reflexivity].
  - intros i m Hi Hm. left.
    change (tier_count (params initial_state)) with 4%nat in Hi.
    change (free_pages (mk_env 5000 20000 30000 1000 [mk_task 1 15 300]))
      with 20000.
    destruct i as [| [| [| [| i]]]]; cbn in Hm; try lia;
      injection Hm as <-; lia.
  - reflexivity.
Defined.

(** X2: with the cutoffs in ascending order, a memory state that is no
    better in free and in file pages than one at which some tier matches
    yields a minimum priority that is no higher. *)
Theorem resolve_min_adj_monotone K P free file free' file' :
  params_wf P -> ascending (tiers P) ->
  is_uint free -> is_uint file -> is_uint free' -> is_uint file' ->
  free' <= free -> file' <= file ->
  (exists i, (i < tier_count P)%nat /\ tier_matches P free file i) ->
  resolve_min_adj K P free' file' <= resolve_min_adj K P free file.
Proof.
  intros Hwf Hasc Hf Hfi Hf' Hfi' Hle1 Hle2 (i0 & Hi0 & Hm0).
  destruct (resolve_min_adj_cases K P free file Hwf Hf Hfi)
    as [(i & c & Hi & Hm & _ & Hc & ->) | (Hnone & _)];
    [| exfalso; exact (Hnone i0 Hi0 Hm0)].
  assert (Hm' : tier_matches P free' file' i).
  { destruct Hm as (m & Hmi & ? & ?). exists m. repeat split; [assumption | lia | lia]. }
  destruct (resolve_min_adj_cases K P free' file' Hwf Hf' Hfi')
    as [(i' & c' & Hi' & _ & Hfirst & Hc' & ->) | (Hnone & _)];
    [| exfalso; exact (Hnone i Hi Hm')].
  apply (Hasc i' i c' c); [| assumption | assumption].
  destruct (le_lt_dec i' i) as [| Hlt]; [assumption |].
  exfalso. exact (Hfirst i Hlt Hm').
Qed.

Lemma default_tiers_ascending : ascending (tiers default_params).
Proof.
  intros i j a b Hij Hi Hj.
  change (tiers default_params) with [0; 1; 6; 12] in Hi, Hj.
  destruct i as [| [| [| [| i]]]]; cbn in Hi; try discriminate;
    injection Hi as <-;
    destruct j as [| [| [| [| j]]]]; cbn in Hj; try discriminate;
    injection Hj as <-; lia.
Qed.

Lemma resolve_min_adj_monotone_witness :
  resolve_min_adj stingray default_params 1000 1000
  <= resolve_min_adj stingray default_params 3000 1000.
Proof.
  apply resolve_min_adj_monotone;
    try (vm_compute; split; [discriminate | reflexivity]);
    try lia.
  - exact default_params_wf.
  - exact default_tiers_ascending.
  - exists 2%nat. split; [vm_compute; lia |].
    exists 4096. repeat split.
Defined.

(** X3: the task a call kills has an [oom_adj] that is at least the
    cutoff of one of the tiers in use, that is of an entry of
    [lowmem_adj] at an index below both sizes; a process whose [oom_adj]
    lies below every such cutoff is never killed. *)
Theorem victim_priority_floor K st env n v size :
  params_wf (params st) ->
  killed (lowmem_shrink K st env n) = Some (v, size) ->
  exists i c sig, (i < tier_count (params st))%nat
    /\ tiers (params st) !! i = Some c
    /\ signal v = Some sig /\ c <= oom_adj sig.
Proof.
  intros Hwf Hk.
  destruct (shrink_killed_inv _ _ _ _ _ _ Hk) as (_ & _ & Hmin & Hsel & _).
  destruct (lowmem_scan_maximal (params st) n (shrink_min_adj K st env) K
              (kzalloc_ok env) (processes env) v Hsel)
    as (_ & (m & sig & _ & Hsig & Hadj & _ & Hge & _) & _).
  fold (shrink_scan K st env n) in Hadj, Hge. rewrite Hadj in Hge.
  unfold shrink_min_adj, resolve_min_adj in Hmin, Hge.
  rewrite (tier_count_effective _ Hwf) in Hmin, Hge.
  destruct (min_adj_loop_first (params st)
              (to_int (global_page_state env NR_FREE_PAGES))
              (to_int (to_uint (global_page_state env NR_FILE_PAGES
                                - global_page_state env NR_SHMEM)))
              (tier_count (params st)) 0 (OOM_ADJUST_MAX K + 1))
    as [(k & Hk' & _ & _ & Hr) | (_ & Hr)]; [| contradiction].
  assert (is_Some (tiers (params st) !! k)) as [c Hc].
  { apply lookup_lt_is_Some. unfold tier_count in Hk'. lia. }
  exists k, c, sig. split; [lia |]. split; [exact Hc |]. split; [exact Hsig |].
  rewrite Hr in Hge.
  rewrite (list_lookup_total_correct _ _ c) in Hge; [exact Hge |].
  rewrite <- Hc. symmetry. apply tiers_lookup. lia.
Qed.

Lemma victim_priority_floor_witness :
  exists i c sig, (i < tier_count default_params)%nat
    /\ tiers default_params !! i = Some c
    /\ signal (mk_task 1 6 300) = Some sig /\ c <= oom_adj sig.
Proof.
  exact (victim_priority_floor stingray initial_state
           (mk_env 5000 1000 1000 1000 [mk_task 1 6 300]) 10
           (mk_task 1 6 300) 300 default_params_wf eq_refl).
Defined.

(** ** What a call does and does not do *)

Lemma reaches_scan_true K st env n :
  reaches_scan K st env n = true <->
  guard_blocks st env = false /\ 0 < n
  /\ shrink_min_adj K st env <> OOM_ADJUST_MAX K + 1.
Proof.
  unfold reaches_scan.
  rewrite !andb_true_iff, !negb_true_iff, Z.ltb_lt, Z.eqb_neq. tauto.
Qed.

Lemma shrink_not_reaching K st env n :
  reaches_scan K st env n = false ->
  trace (lowmem_shrink K st env n) = []
  /\ killed (lowmem_shrink K st env n) = None
  /\ state_after (lowmem_shrink K st env n) = st.
Proof.
  unfold reaches_scan. rewrite lowmem_shrink_eq.
  destruct (guard_blocks st env); [auto |].
  destruct (Z.leb_spec n 0) as [Hn | Hn]; [auto |].
  rewrite (proj2 (Z.ltb_lt 0 n) Hn). cbn [negb andb orb].
  destruct (shrink_min_adj K st env =? OOM_ADJUST_MAX K + 1); [auto | discriminate].
Qed.

(** X4: a call kills a task exactly when it gets as far as the scan and
    the process table holds at least one candidate (a task with an mm and a
    signal struct, [oom_adj >= min_adj] and a positive resident size). *)
Theorem kills_iff_candidate K st env n :
  is_Some (killed (lowmem_shrink K st env n)) <->
  reaches_scan K st env n = true
  /\ exists p adj size, p ∈ processes env
       /\ candidate (shrink_min_adj K st env) p adj size.
Proof.
  split.
  - intros [[v size] Hk].
    destruct (shrink_killed_inv _ _ _ _ _ _ Hk) as (Hg & Hn & Hmin & Hsel & Hsz).
    split; [apply reaches_scan_true; auto |].
    destruct (lowmem_scan_maximal (params st) n (shrink_min_adj K st env) K
                (kzalloc_ok env) (processes env) v Hsel) as (Hin & Hc & _).
    eauto.
  - intros [Hreach (p & adj & size & Hp & Hc)].
    apply reaches_scan_true in Hreach as (Hg & Hn & Hmin).
    rewrite (shrink_scans _ _ _ _ Hg Hn Hmin). cbv zeta.
    destruct (selected (shrink_scan K st env n)) as [v |] eqn:Hsel.
    + cbn [killed]. eauto.
    + exfalso.
      exact (lowmem_scan_none (params st) n (shrink_min_adj K st env) K
               (kzalloc_ok env) (processes env) Hsel p adj size Hp Hc).
Qed.

Lemma kills_iff_candidate_witness :
  is_Some (killed (lowmem_shrink stingray initial_state
                     (mk_env 5000 1000 1000 1000 [mk_task 1 6 300]) 10)).
Proof.
  apply kills_iff_candidate. split; [reflexivity |].
  exists (mk_task 1 6 300), 6, 300. split.
  - apply elem_of_cons. now left.
  - apply mk_task_candidate; [vm_compute; discriminate | vm_compute; auto].
Defined.

(** X5: a call that gets as far as the scan takes the lock of every
    process of the table exactly once, in table order, whether or not it
    finds a victim; any other call inspects none.  At most one signal is
    sent, it is SIGKILL, it goes to the task reported as killed and it is
    the last action of the call. *)
Theorem shrink_trace_shape K st env n :
  trace (lowmem_shrink K st env n)
  = (if reaches_scan K st env n
     then map (fun p => Ev_task_lock (task_addr p)) (processes env)
     else [])
    ++ match killed (lowmem_shrink K st env n) with
       | Some (v, _) => [Ev_force_sig SIGKILL (task_addr v)]
       | None => []
       end.
Proof.
  destruct (reaches_scan K st env n) eqn:Hreach.
  - apply reaches_scan_true in Hreach as (Hg & Hn & Hmin).
    rewrite (shrink_scans _ _ _ _ Hg Hn Hmin). cbv zeta.
    destruct (selected (shrink_scan K st env n)) as [v |];
      cbn [trace killed]; unfold shrink_scan; rewrite lowmem_scan_trace;
      cbn [scan_trace scan_init app]; [reflexivity | now rewrite app_nil_r].
  - destruct (shrink_not_reaching _ _ _ _ Hreach) as (-> & -> & _). reflexivity.
Qed.

(** X6: a call never touches the module parameters and never clears a
    pending victim: when it kills nothing the whole state is as before
    (a victim whose deadline has passed stays recorded), and when it kills
    the new victim and the deadline [jiffies + HZ] replace the old ones. *)
Theorem shrink_state_effect K st env n :
  params (state_after (lowmem_shrink K st env n)) = params st
  /\ match killed (lowmem_shrink K st env n) with
     | None => state_after (lowmem_shrink K st env n) = st
     | Some (v, _) =>
         state_after (lowmem_shrink K st env n)
         = {| params := params st;
              lowmem_deathpending := Some (task_addr v);
              lowmem_deathpending_timeout := to_uint (jiffies env + HZ K) |}
     end.
Proof.
  destruct (reaches_scan K st env n) eqn:Hreach.
  - apply reaches_scan_true in Hreach as (Hg & Hn & Hmin).
    rewrite (shrink_scans _ _ _ _ Hg Hn Hmin). cbv zeta.
    destruct (selected (shrink_scan K st env n)) as [v |];
      cbn [state_after killed params]; auto.
  - destruct (shrink_not_reaching _ _ _ _ Hreach) as (_ & -> & ->). auto.
Qed.

(** X7: once the guard lets a call through, the pending victim and its
    deadline play no part in it: two states with the same parameters give
    the same return value, the same actions and the same victim. *)
Theorem unblocked_call_ignores_pending K st st' env n :
  params st = params st' ->
  guard_blocks st env = false -> guard_blocks st' env = false ->
  ret (lowmem_shrink K st env n) = ret (lowmem_shrink K st' env n)
  /\ trace (lowmem_shrink K st env n) = trace (lowmem_shrink K st' env n)
  /\ killed (lowmem_shrink K st env n) = killed (lowmem_shrink K st' env n)
  /\ overrun (lowmem_shrink K st env n) = overrun (lowmem_shrink K st' env n).
Proof.
  intros Hp Hg Hg'. rewrite !lowmem_shrink_eq, Hg, Hg'.
  unfold shrink_scan, shrink_min_adj. rewrite Hp.
  destruct ((n <=? 0) || _); [repeat split |].
  cbv zeta. destruct (selected _); repeat split.
Qed.

Lemma unblocked_call_ignores_pending_witness :
  killed (lowmem_shrink stingray (pending_state default_params 42 4000)
            (mk_env 5000 1000 1000 1000 [mk_task 1 6 300]) 10)
  = killed (lowmem_shrink stingray initial_state
            (mk_env 5000 1000 1000 1000 [mk_task 1 6 300]) 10).
Proof.
  destruct (unblocked_call_ignores_pending stingray
              (pending_state default_params 42 4000) initial_state
              (mk_env 5000 1000 1000 1000 [mk_task 1 6 300]) 10
              eq_refl eq_refl eq_refl) as (_ & _ & Hk & _).
  exact Hk.
Defined.

(** ** The debounce window *)

Lemma to_uint_sub a b : to_uint (to_uint a - to_uint b) = to_uint (a - b).
Proof. unfold to_uint. now rewrite <- Zminus_mod. Qed.

Lemma to_int_sub_to_int a b : to_int (to_int a - to_int b) = to_int (a - b).
Proof.
  apply to_int_congr.
  rewrite <- (to_uint_sub (to_int a) (to_int b)), !to_uint_to_int.
  apply to_uint_sub.
Qed.

(** [time_before_eq] only looks at the signed 32-bit distance between
    its arguments. *)
Lemma time_before_eq_signed now d w :
  time_before_eq (to_uint (now + d)) (to_uint (now + w))
  = (0 <=? to_int (w - d)).
Proof.
  unfold time_before_eq. rewrite to_int_sub_to_int. f_equal.
  apply to_int_congr. rewrite to_uint_sub. f_equal. lia.
Qed.

(** [time_before_eq] only looks at the signed distance between its
    arguments, so it survives the wrap-around of [jiffies]. *)
Lemma time_before_eq_distance now d w :
  - half_modulus <= w - d < half_modulus ->
  time_before_eq (to_uint (now + d)) (to_uint (now + w)) = (d <=? w).
Proof.
  intros Hr. unfold time_before_eq.
  rewrite to_int_sub_to_int.
  assert (Hdist : to_int (to_uint (now + w) - to_uint (now + d)) = w - d).
  { rewrite <- (to_int_id (w - d)) by exact Hr.
    apply to_int_congr. rewrite to_uint_sub. f_equal. lia. }
  rewrite Hdist.
  destruct (Z.leb_spec 0 (w - d)); destruct (Z.leb_spec d w); lia || reflexivity.
Qed.

(** The state a kill leaves behind. *)
Lemma shrink_kill_state K st env n v size :
  killed (lowmem_shrink K st env n) = Some (v, size) ->
  state_after (lowmem_shrink K st env n)
  = {| params := params st;
       lowmem_deathpending := Some (task_addr v);
       lowmem_deathpending_timeout := to_uint (jiffies env + HZ K) |}.
Proof.
  intros Hk.
  destruct (shrink_killed_inv _ _ _ _ _ _ Hk) as (Hg & Hn & Hmin & Hsel & _).
  rewrite (shrink_scans _ _ _ _ Hg Hn Hmin). cbv zeta. now rewrite Hsel.
Qed.

(** X8: after a kill at time [jiffies], a later call made [d] jiffies
    afterwards, with no exit notification in between, is turned away by the
    guard exactly when [HZ - d], read as a signed 32-bit number, is not
    negative.  For [d] up to 2^31 jiffies past the deadline
    ([-2^31 <= HZ - d < 2^31]) that is exactly when [d <= HZ], also when
    the jiffies counter wraps around in between; further out the signed
    distance wraps and the guard can block again.  A call that is turned
    away inspects no process, kills nothing, leaves the state unchanged
    and returns 0. *)
Theorem debounce_lasts_one_second K st env n v size env2 d :
  killed (lowmem_shrink K st env n) = Some (v, size) ->
  jiffies env2 = to_uint (jiffies env + d) ->
  let st1 := state_after (lowmem_shrink K st env n) in
  guard_blocks st1 env2 = (0 <=? to_int (HZ K - d))
  /\ (- half_modulus <= HZ K - d < half_modulus ->
      guard_blocks st1 env2 = (d <=? HZ K))
  /\ (guard_blocks st1 env2 = true ->
      forall n', lowmem_shrink K st1 env2 n' = nothing_done 0 st1)
  /\ (- half_modulus <= HZ K - d < half_modulus -> d <= HZ K ->
      forall n', lowmem_shrink K st1 env2 n' = nothing_done 0 st1).
Proof.
  intros Hk Hnow. cbv zeta.
  pose proof (shrink_kill_state K st env n v size Hk) as Hst.
  assert (Hg : guard_blocks (state_after (lowmem_shrink K st env n)) env2
               = (0 <=? to_int (HZ K - d))).
  { rewrite Hst. unfold guard_blocks.
    cbn [lowmem_deathpending lowmem_deathpending_timeout].
    rewrite bool_decide_eq_true_2 by discriminate. cbn [andb].
    rewrite Hnow. apply time_before_eq_signed. }
  assert (Hin : - half_modulus <= HZ K - d < half_modulus ->
                guard_blocks (state_after (lowmem_shrink K st env n)) env2
                = (d <=? HZ K)).
  { intros Hr. rewrite Hg, (to_int_id _ Hr).
    destruct (Z.leb_spec 0 (HZ K - d)); destruct (Z.leb_spec d (HZ K));
      lia || reflexivity. }
  split; [exact Hg |]. split; [exact Hin |]. split.
  - intros Hb n'. now apply shrink_blocked.
  - intros Hr Hd n'. apply shrink_blocked. rewrite (Hin Hr). now apply Z.leb_le.
Qed.

Lemma debounce_lasts_one_second_witness :
  guard_blocks
    (state_after (lowmem_shrink stingray initial_state
                    (mk_env 4294967290 1000 1000 1000 [mk_task 1 6 300]) 10))
    (mk_env 44 1000 1000 1000 [mk_task 1 6 300]) = true.
Proof.
  destruct (debounce_lasts_one_second stingray initial_state
              (mk_env 4294967290 1000 1000 1000 [mk_task 1 6 300]) 10
              (mk_task 1 6 300) 300
              (mk_env 44 1000 1000 1000 [mk_task 1 6 300]) 50
              eq_refl eq_refl) as (_ & Hin & _).
  rewrite Hin; [reflexivity |].
  vm_compute. split; [discriminate | reflexivity].
Defined.



(** X10: exit notifications never record a victim and never touch the
    parameters or the deadline; notifying the same task twice is the same
    as notifying it once, and two notifications can be delivered in either
    order. *)
Theorem task_notify_algebra st a b :
  params (task_notify_func st a) = params st
  /\ lowmem_deathpending_timeout (task_notify_func st a)
     = lowmem_deathpending_timeout st
  /\ (lowmem_deathpending (task_notify_func st a) = None
      \/ task_notify_func st a = st)
  /\ task_notify_func (task_notify_func st a) a = task_notify_func st a
  /\ task_notify_func (task_notify_func st a) b
     = task_notify_func (task_notify_func st b) a.
Proof.
  destruct st as [P pend tmo]. unfold task_notify_func.
  cbn [lowmem_deathpending lowmem_deathpending_timeout params].
  destruct (decide (a = pend)) as [Ha | Ha];
    destruct (decide (b = pend)) as [Hb | Hb];
    cbn [lowmem_deathpending lowmem_deathpending_timeout params];
    repeat match goal with
           | |- context [decide (?x = ?y)] => destruct (decide (x = y))
           end;
    subst; repeat split; auto; congruence.
Qed.

(** ** The best-delta bound *)

Lemma step_delta_le P nr min_adj s p :
  lowmem_delta (scan_step P nr min_adj s p) <= lowmem_delta s.
Proof.
  unfold scan_step.
  destruct (mm p) as [m |]; [| cbn; lia].
  destruct (signal p) as [sig |]; [| cbn; lia].
  cbv zeta. fold (probe s p (oom_adj sig)).
  repeat match goal with
         | |- context [if ?a <=? ?b then _ else _] => destruct (Z.leb_spec a b)
         | |- context [if ?c then _ else _] => destruct c
         | |- context [match selected ?x with _ => _ end] => destruct (selected x)
         end;
    cbn [lowmem_delta select set_lowmem_delta]; rewrite ?probe_delta in *; lia.
Qed.

Lemma step_delta_legacy P nr min_adj s p :
  lowmem_oldmethod P <> 0 ->
  lowmem_delta (scan_step P nr min_adj s p) = lowmem_delta s.
Proof.
  intros Hold. unfold scan_step.
  destruct (mm p) as [m |]; [| reflexivity].
  destruct (signal p) as [sig |]; [| reflexivity].
  cbv zeta. fold (probe s p (oom_adj sig)).
  rewrite (proj2 (Z.eqb_neq _ _) Hold). cbn [negb].
  repeat match goal with
         | |- context [if ?c then _ else _] => destruct c
         | |- context [match selected ?x with _ => _ end] => destruct (selected x)
         end;
    cbn [lowmem_delta select]; apply probe_delta.
Qed.

Lemma size_delta_range P nr size : 0 <= size_delta P nr size <= half_modulus.
Proof.
  unfold size_delta, kabs.
  pose proof (to_int_range
                (to_uint (to_uint (nr * lowmem_multiplier P) - size))) as Hr.
  unfold is_int in Hr. rewrite half_modulus_eq in *.
  rewrite to_uint_id; [lia |]. unfold is_uint. rewrite modulus_eq. lia.
Qed.

(** X11: the best-delta bound never rises during a scan, whatever the
    processes are, and in legacy mode it is never written at all. *)
Theorem lowmem_delta_never_rises P nr min_adj ps s :
  lowmem_delta (lowmem_scan P nr min_adj s ps) <= lowmem_delta s
  /\ (lowmem_oldmethod P <> 0 ->
      lowmem_delta (lowmem_scan P nr min_adj s ps) = lowmem_delta s).
Proof.
  split.
  - revert s. induction ps as [| p ps IH]; intros s; cbn; [lia |].
    unfold lowmem_scan in IH.
    pose proof (IH (scan_step P nr min_adj s p)).
    pose proof (step_delta_le P nr min_adj s p). lia.
  - intros Hold. revert s. induction ps as [| p ps IH]; intros s; cbn;
      [reflexivity |].
    unfold lowmem_scan in IH. rewrite IH. now apply step_delta_legacy.
Qed.

Lemma lowmem_delta_never_rises_witness :
  lowmem_delta (lowmem_scan legacy_params 10 0 (scan_init stingray 0 true)
                  [mk_task 1 6 300; mk_task 2 6 500]) = 262144.
Proof.
  destruct (lowmem_delta_never_rises legacy_params 10 0
              [mk_task 1 6 300; mk_task 2 6 500] (scan_init stingray 0 true))
    as [_ Hkeep].
  rewrite Hkeep; [reflexivity | cbn; lia].
Defined.

(** X12: the delta of a candidate is the true distance
    [|nr_to_scan * lowmem_multiplier - tasksize|] whenever that difference
    fits an [int]; in every case it lies between 0 and 2^31. *)
Theorem size_delta_exact P nr size :
  0 <= size_delta P nr size <= half_modulus
  /\ (is_int (nr * lowmem_multiplier P - size) ->
      size_delta P nr size = Z.abs (nr * lowmem_multiplier P - size)).
Proof.
  split; [apply size_delta_range |].
  intros Hfit. unfold size_delta, kabs.
  rewrite to_int_to_uint.
  replace (to_int (to_uint (nr * lowmem_multiplier P) - size))
    with (nr * lowmem_multiplier P - size).
  - apply to_uint_id. unfold is_uint, is_int in *.
    rewrite modulus_eq. rewrite half_modulus_eq in Hfit. lia.
  - rewrite <- (to_int_id _ Hfit) at 1. apply to_int_congr.
    unfold Z.sub. now rewrite to_uint_add_l.
Qed.

Lemma size_delta_exact_witness : size_delta default_params 10 500 = 140.
Proof.
  destruct (size_delta_exact default_params 10 500) as [_ Hexact].
  rewrite Hexact; [reflexivity |].
  vm_compute. split; discriminate || reflexivity.
Defined.

(** ** Diagnostics do not steer the decision *)

Lemma step_selection_congr P nr min_adj s s' p :
  selection s = selection s' ->
  selection (scan_step P nr min_adj s p) = selection (scan_step P nr min_adj s' p).
Proof.
  intros Hsel.
  destruct (candidate_dec min_adj p) as [(adj & size & Hc) | Hno].
  - rewrite !(step_candidate P nr min_adj _ p adj size Hc). cbv zeta.
    rewrite !probe_selected, !probe_oom_adj, !probe_tasksize, !probe_delta.
    unfold selection in Hsel. injection Hsel as H1 H2 H3 H4.
    rewrite H1, H2, H3, H4.
    repeat match goal with
           | |- context [match selected ?x with _ => _ end] =>
               destruct (selected x) eqn:?
           | |- context [if ?c then _ else _] => destruct c
           end;
      unfold selection; cbn [selected selected_tasksize selected_oom_adj
                             lowmem_delta select set_lowmem_delta];
      rewrite ?probe_selected, ?probe_oom_adj, ?probe_tasksize, ?probe_delta;
      congruence.
  - rewrite !(step_not_candidate P nr min_adj _ p Hno). exact Hsel.
Qed.

Lemma lowmem_scan_selection_congr P nr min_adj ps s s' :
  selection s = selection s' ->
  selection (lowmem_scan P nr min_adj s ps) = selection (lowmem_scan P nr min_adj s' ps).
Proof.
  revert s s'. induction ps as [| p ps IH]; intros s s' Hsel; cbn; [exact Hsel |].
  apply IH, step_selection_congr, Hsel.
Qed.

(** X13: whether the histogram allocation succeeds has no influence on the
    decision: the return value, the state left behind, the actions and the
    victim are the same in both cases. *)
Theorem kzalloc_failure_harmless K st now counters ps ok ok' n :
  let env := {| jiffies := now; global_page_state := counters;
                processes := ps; kzalloc_ok := ok |} in
  let env' := {| jiffies := now; global_page_state := counters;
                 processes := ps; kzalloc_ok := ok' |} in
  ret (lowmem_shrink K st env n) = ret (lowmem_shrink K st env' n)
  /\ state_after (lowmem_shrink K st env n) = state_after (lowmem_shrink K st env' n)
  /\ trace (lowmem_shrink K st env n) = trace (lowmem_shrink K st env' n)
  /\ killed (lowmem_shrink K st env n) = killed (lowmem_shrink K st env' n).
Proof.
  cbv zeta. rewrite !lowmem_shrink_eq.
  set (env := {| jiffies := now; global_page_state := counters;
                 processes := ps; kzalloc_ok := ok |}).
  set (env' := {| jiffies := now; global_page_state := counters;
                  processes := ps; kzalloc_ok := ok' |}).
  change (guard_blocks st env') with (guard_blocks st env).
  change (shrink_min_adj K st env') with (shrink_min_adj K st env).
  change (reclaimable env') with (reclaimable env).
  destruct (guard_blocks st env); [repeat split |].
  destruct ((n <=? 0) || _); [repeat split |].
  cbv zeta.
  assert (Hsel : selection (shrink_scan K st env n)
                 = selection (shrink_scan K st env' n)).
  { unfold shrink_scan. apply lowmem_scan_selection_congr. reflexivity. }
  assert (Htr : scan_trace (shrink_scan K st env n)
                = scan_trace (shrink_scan K st env' n)).
  { unfold shrink_scan. rewrite !lowmem_scan_trace. reflexivity. }
  unfold selection in Hsel. injection Hsel as H1 H2 _ _.
  rewrite H1, H2, Htr.
  destruct (selected (shrink_scan K st env' n)); repeat split.
Qed.

(** ** Whom a scan selects, mode by mode *)

Lemma legacy_step_inv P nr min_adj seen s p :
  lowmem_oldmethod P <> 0 ->
  scan_inv min_adj seen s -> legacy_inv min_adj seen s ->
  legacy_inv min_adj (seen ++ [p]) (scan_step P nr min_adj s p).
Proof.
  intros Hold Hinv Hleg. unfold legacy_inv, scan_inv in *.
  assert (Hmem : forall q, q ∈ seen ++ [p] -> q ∈ seen \/ q = p).
  { intros q Hq. apply elem_of_app in Hq as [Hq | Hq]; [now left |].
    right. now apply list_elem_of_singleton in Hq. }
  destruct (candidate_dec min_adj p) as [(adj & size & Hc) | Hno].
  - destruct (selected s) as [cur |] eqn:Hsel.
    + destruct Hinv as (_ & _ & Hmax).
      destruct (Z.lt_trichotomy adj (selected_oom_adj s)) as [Hlt | [Heq | Hgt]].
      * pose proof (step_lower P nr min_adj s p cur adj size Hsel Hc Hlt) as H.
        unfold selection in H. injection H as H1 H2 H3 _.
        rewrite H1, H2, H3, Hsel.
        intros q adj' size' Hq Hcq Hadj. destruct (Hmem q Hq) as [Hq' | ->].
        -- eapply Hleg; eauto.
        -- destruct (candidate_functional _ _ _ _ _ _ Hc Hcq) as [-> _]. lia.
      * pose proof (step_equal_legacy P nr min_adj s p cur adj size
                      Hold Hsel Hc Heq) as H.
        destruct (Z.leb_spec size (selected_tasksize s)) as [Hle | Hgt].
        -- unfold selection in H. injection H as H1 H2 H3 _.
           rewrite H1, H2, H3, Hsel.
           intros q adj' size' Hq Hcq Hadj. destruct (Hmem q Hq) as [Hq' | ->].
           ++ eapply Hleg; eauto.
           ++ destruct (candidate_functional _ _ _ _ _ _ Hc Hcq) as [_ ->]. lia.
        -- apply selection_eq in H as (H1 & H2 & H3 & _).
           rewrite H1, H2, H3.
           intros q adj' size' Hq Hcq Hadj. destruct (Hmem q Hq) as [Hq' | ->].
           ++ assert (size' <= selected_tasksize s) by (eapply Hleg; eauto; lia).
              lia.
           ++ destruct (candidate_functional _ _ _ _ _ _ Hc Hcq) as [_ ->]. lia.
      * destruct (step_higher P nr min_adj s p cur adj size Hsel Hc Hgt)
          as (H1 & H2 & H3 & _).
        rewrite H1, H2, H3.
        intros q adj' size' Hq Hcq Hadj. destruct (Hmem q Hq) as [Hq' | ->].
        -- specialize (Hmax q adj' size' Hq' Hcq). lia.
        -- destruct (candidate_functional _ _ _ _ _ _ Hc Hcq) as [_ ->]. lia.
    + pose proof (step_first P nr min_adj s p adj size Hsel Hc) as H.
      apply selection_eq in H as (H1 & H2 & H3 & _).
      rewrite H1, H2, H3.
      intros q adj' size' Hq Hcq Hadj. destruct (Hmem q Hq) as [Hq' | ->].
      * exfalso. eapply Hinv; eauto.
      * destruct (candidate_functional _ _ _ _ _ _ Hc Hcq) as [_ ->]. lia.
  - pose proof (step_not_candidate P nr min_adj s p Hno) as H.
    unfold selection in H. injection H as H1 H2 H3 _.
    rewrite H1, H2, H3.
    destruct (selected s) as [cur |]; [| exact I].
    intros q adj' size' Hq Hcq Hadj. destruct (Hmem q Hq) as [Hq' | ->].
    + eapply Hleg; eauto.
    + exfalso. exact (Hno _ _ Hcq).
Qed.

Lemma legacy_scan_inv P nr min_adj ps seen s :
  lowmem_oldmethod P <> 0 ->
  scan_inv min_adj seen s -> legacy_inv min_adj seen s ->
  legacy_inv min_adj (seen ++ ps) (lowmem_scan P nr min_adj s ps).
Proof.
  intros Hold. revert seen s.
  induction ps as [| p ps IH]; intros seen s Hinv Hleg; cbn.
  - now rewrite app_nil_r.
  - replace (seen ++ p :: ps) with ((seen ++ [p]) ++ ps)
      by (now rewrite <- app_assoc).
    apply IH; [now apply scan_step_inv | now apply legacy_step_inv].
Qed.

(** X14: in legacy mode the task a call kills is, among all candidates of
    the process table, first by priority and then by size: every other
    candidate has a lower [oom_adj], or the same [oom_adj] and a resident
    size that is not larger. *)
Theorem legacy_victim_is_largest K st env n v size :
  lowmem_oldmethod (params st) <> 0 ->
  killed (lowmem_shrink K st env n) = Some (v, size) ->
  exists adj, candidate (shrink_min_adj K st env) v adj size
    /\ forall p adj' size', p ∈ processes env ->
         candidate (shrink_min_adj K st env) p adj' size' ->
         adj' < adj \/ (adj' = adj /\ size' <= size).
Proof.
  intros Hold Hk.
  destruct (shrink_killed_inv _ _ _ _ _ _ Hk) as (_ & _ & _ & Hsel & Hsz).
  destruct (lowmem_scan_maximal (params st) n (shrink_min_adj K st env) K
              (kzalloc_ok env) (processes env) v Hsel) as (_ & Hc & Hmax).
  fold (shrink_scan K st env n) in Hc, Hmax. rewrite Hsz in Hc.
  pose proof (legacy_scan_inv (params st) n (shrink_min_adj K st env)
                (processes env) [] _ Hold
                (scan_init_inv (shrink_min_adj K st env) K (kzalloc_ok env)) I)
    as Hleg.
  unfold legacy_inv in Hleg. fold (shrink_scan K st env n) in Hleg.
  rewrite Hsel, Hsz in Hleg. cbn [app] in Hleg.
  exists (selected_oom_adj (shrink_scan K st env n)). split; [exact Hc |].
  intros p adj' size' Hp Hcp.
  specialize (Hmax p adj' size' Hp Hcp).
  destruct (Z.eq_dec adj' (selected_oom_adj (shrink_scan K st env n)))
    as [Heq | Hne]; [right | left; lia].
  split; [exact Heq |]. exact (Hleg p adj' size' Hp Hcp Heq).
Qed.

Lemma legacy_victim_is_largest_witness :
  exists adj,
    candidate 0 (mk_task 2 6 500) adj 500
    /\ forall p adj' size',
         p ∈ [mk_task 1 6 300; mk_task 2 6 500; mk_task 3 6 400] ->
         candidate 0 p adj' size' ->
         adj' < adj \/ (adj' = adj /\ size' <= 500).
Proof.
  apply (legacy_victim_is_largest stingray
           {| params := legacy_params; lowmem_deathpending := None;
              lowmem_deathpending_timeout := 0 |}
           (mk_env 5000 1000 1000 1000
              [mk_task 1 6 300; mk_task 2 6 500; mk_task 3 6 400]) 10
           (mk_task 2 6 500) 500).
  - cbn. lia.
  - reflexivity.
Defined.

Lemma scan_no_candidates P nr min_adj ps s :
  (forall p adj size, p ∈ ps -> ~ candidate min_adj p adj size) ->
  selection (lowmem_scan P nr min_adj s ps) = selection s.
Proof.
  revert s. induction ps as [| p ps IH]; intros s Hno; cbn; [reflexivity |].
  unfold lowmem_scan in IH. rewrite IH.
  - apply step_not_candidate. intros adj size. apply Hno, elem_of_cons. now left.
  - intros q adj size Hq. apply Hno, elem_of_cons. now right.
Qed.

Lemma equal_priority_step P nr min_adj c1 z1 a bound seen s p :
  lowmem_oldmethod P = 0 ->
  (forall adj size, candidate min_adj p adj size -> adj = a) ->
  equal_priority_inv P nr min_adj c1 z1 a bound seen s ->
  equal_priority_inv P nr min_adj c1 z1 a bound (seen ++ [p])
    (scan_step P nr min_adj s p).
Proof.
  intros Hold Hsame [Hadj Hcases]. unfold equal_priority_inv.
  assert (Hmem : forall q, q ∈ seen ++ [p] -> q ∈ seen \/ q = p).
  { intros q Hq. apply elem_of_app in Hq as [Hq | Hq]; [now left |].
    right. now apply list_elem_of_singleton in Hq. }
  assert (Hin : forall q, q ∈ seen -> q ∈ seen ++ [p]).
  { intros q Hq. apply elem_of_app. now left. }
  assert (Hp : p ∈ seen ++ [p]).
  { apply elem_of_app. right. now apply list_elem_of_singleton. }
  destruct (candidate_dec min_adj p) as [(adj & size & Hc) | Hno].
  - assert (adj = a) as -> by (eapply Hsame; eauto).
    assert (exists cur, selected s = Some cur) as [cur Hsel].
    { destruct Hcases as [(H & _) | (v & zv & _ & _ & H & _)]; eauto. }
    pose proof (step_equal_default P nr min_adj s p cur a size
                  Hold Hsel Hc (eq_sym Hadj)) as H.
    destruct (Z.ltb_spec (lowmem_delta s) (size_delta P nr size)) as [Hfar | Hnear].
    + unfold selection in H. injection H as H1 H2 H3 H4.
      rewrite H1, H2, H3, H4. split; [exact Hadj |].
      destruct Hcases as [(Hs & Hz & Hd & Hall) | (v & zv & Hv & Hcv & Hs & Hz & Hd & Hb & Hall)].
      * left. repeat split; auto.
        intros q adj' size' Hq Hcq. destruct (Hmem q Hq) as [Hq' | ->].
        -- eapply Hall; eauto.
        -- destruct (candidate_functional _ _ _ _ _ _ Hc Hcq) as [_ ->]. lia.
      * right. exists v, zv. repeat split; auto.
        intros q adj' size' Hq Hcq. destruct (Hmem q Hq) as [Hq' | ->].
        -- eapply Hall; eauto.
        -- destruct (candidate_functional _ _ _ _ _ _ Hc Hcq) as [_ ->]. lia.
    + apply selection_eq in H as (H1 & H2 & H3 & H4).
      rewrite H1, H2, H3, H4. split; [reflexivity |].
      right. exists p, size. repeat split; auto.
      * destruct Hcases as [(_ & _ & Hd & _) | (v & zv & _ & _ & _ & _ & Hd & Hb & _)];
          lia.
      * intros q adj' size' Hq Hcq. destruct (Hmem q Hq) as [Hq' | ->].
        -- destruct Hcases as [(_ & _ & Hd & Hall) | (v & zv & _ & _ & _ & _ & Hd & _ & Hall)].
           ++ specialize (Hall q adj' size' Hq' Hcq). lia.
           ++ specialize (Hall q adj' size' Hq' Hcq). lia.
        -- destruct (candidate_functional _ _ _ _ _ _ Hc Hcq) as [_ ->]. lia.
  - pose proof (step_not_candidate P nr min_adj s p Hno) as H.
    unfold selection in H. injection H as H1 H2 H3 H4.
    rewrite H1, H2, H3, H4. split; [exact Hadj |].
    destruct Hcases as [(Hs & Hz & Hd & Hall) | (v & zv & Hv & Hcv & Hs & Hz & Hd & Hb & Hall)].
    + left. repeat split; auto.
      intros q adj' size' Hq Hcq. destruct (Hmem q Hq) as [Hq' | ->].
      * eapply Hall; eauto.
      * exfalso. exact (Hno _ _ Hcq).
    + right. exists v, zv. repeat split; auto.
      intros q adj' size' Hq Hcq. destruct (Hmem q Hq) as [Hq' | ->].
      * eapply Hall; eauto.
      * exfalso. exact (Hno _ _ Hcq).
Qed.

Lemma equal_priority_scan P nr min_adj c1 z1 a bound ps seen s :
  lowmem_oldmethod P = 0 ->
  (forall p adj size, p ∈ ps -> candidate min_adj p adj size -> adj = a) ->
  equal_priority_inv P nr min_adj c1 z1 a bound seen s ->
  equal_priority_inv P nr min_adj c1 z1 a bound (seen ++ ps)
    (lowmem_scan P nr min_adj s ps).
Proof.
  intros Hold. revert seen s.
  induction ps as [| p ps IH]; intros seen s Hsame Hinv; cbn.
  - now rewrite app_nil_r.
  - replace (seen ++ p :: ps) with ((seen ++ [p]) ++ ps)
      by (now rewrite <- app_assoc).
    apply IH.
    + intros q adj size Hq. apply Hsame, elem_of_cons. now right.
    + apply equal_priority_step; auto.
      intros adj size. apply Hsame, elem_of_cons. now left.
Qed.

(** X15: default mode over candidates of one priority.  The first
    candidate [c1] of the table is accepted without its fit being looked
    at; it stays selected only if every later candidate is further from
    the target [nr_to_scan * lowmem_multiplier] than the initial bound.
    Otherwise the task selected at the end is one of the later candidates,
    and among those its delta is the smallest. *)
Theorem default_mode_equal_priority_scan K P nr min_adj ok pre c1 rest a z1 :
  lowmem_oldmethod P = 0 ->
  (forall p adj size, p ∈ pre -> ~ candidate min_adj p adj size) ->
  candidate min_adj c1 a z1 ->
  (forall p adj size, p ∈ rest -> candidate min_adj p adj size -> adj = a) ->
  equal_priority_inv P nr min_adj c1 z1 a
    (to_uint ((1048576 * 1024) / PAGE_SIZE K)) rest
    (lowmem_scan P nr min_adj (scan_init K min_adj ok) (pre ++ c1 :: rest)).
Proof.
  intros Hold Hpre Hc1 Hrest.
  unfold lowmem_scan. rewrite fold_left_app. cbn [fold_left].
  fold (lowmem_scan P nr min_adj (scan_init K min_adj ok) pre).
  fold (lowmem_scan P nr min_adj
          (scan_step P nr min_adj
             (lowmem_scan P nr min_adj (scan_init K min_adj ok) pre) c1) rest).
  pose proof (scan_no_candidates P nr min_adj pre (scan_init K min_adj ok) Hpre)
    as Hs0.
  apply selection_eq in Hs0 as (Hsel0 & _ & _ & Hd0).
  cbn [selected lowmem_delta scan_init] in Hsel0, Hd0.
  pose proof (step_first P nr min_adj _ c1 a z1 Hsel0 Hc1) as Hs1.
  apply selection_eq in Hs1 as (Hsel1 & Hz1 & Ha1 & Hd1).
  rewrite Hd0 in Hd1.
  apply (equal_priority_scan P nr min_adj c1 z1 a _ rest [] _ Hold Hrest).
  split; [exact Ha1 |].
  left. repeat split; auto.
  intros p adj size Hp. now apply elem_of_nil in Hp.
Qed.

Lemma default_mode_equal_priority_scan_witness :
  selected (lowmem_scan default_params 10 0 (scan_init stingray 0 true)
              ([] ++ mk_task 1 6 360 :: [mk_task 2 6 500; mk_task 3 6 100]))
  <> Some (mk_task 1 6 360).
Proof.
  assert (Hc : forall a z, 0 < z < half_modulus -> candidate 0 (mk_task a 6 z) 6 z)
    by (intros a z Hz; apply mk_task_candidate; [lia | exact Hz]).
  assert (H500 : 0 < 500 < half_modulus) by (vm_compute; auto).
  assert (H360 : 0 < 360 < half_modulus) by (vm_compute; auto).
  destruct (default_mode_equal_priority_scan stingray default_params 10 0 true
              [] (mk_task 1 6 360) [mk_task 2 6 500; mk_task 3 6 100] 6 360
              eq_refl) as [_ [(_ & _ & _ & Hall) | (v & zv & Hv & _ & Hsel & _)]].
  - intros p adj size Hp. now apply elem_of_nil in Hp.
  - apply Hc, H360.
  - intros p adj size Hp (m & sig & _ & Hsig & -> & _).
    apply elem_of_cons in Hp as [-> | Hp]; [injection Hsig as <-; reflexivity |].
    apply elem_of_cons in Hp as [-> | Hp]; [injection Hsig as <-; reflexivity |].
    now apply elem_of_nil in Hp.
  - exfalso.
    assert (Hin : mk_task 2 6 500 ∈ [mk_task 2 6 500; mk_task 3 6 100])
      by (apply elem_of_cons; now left).
    specialize (Hall (mk_task 2 6 500) 6 500 Hin (Hc 2 500 H500)).
    vm_compute in Hall. discriminate.
  - rewrite Hsel. intros [= ->].
    apply elem_of_cons in Hv as [Hv | Hv]; [discriminate |].
    apply elem_of_cons in Hv as [Hv | Hv]; [discriminate |].
    now apply elem_of_nil in Hv.
Defined.

(** ** What the histogram holds *)

(** X16: at the end of a scan, slot [i] of the histogram holds the number
    of processes with an mm and a signal struct whose [oom_adj] is [i],
    whether or not they passed the priority and size filters (for a
    process table of fewer than 2^31 entries, so that no counter wraps). *)
Theorem ooms_seen_counts K P nr min_adj ps i :
  (i < OOMS_SEEN_LEN)%nat ->
  Z.of_nat (length ps) < half_modulus ->
  exists buf,
    ooms_seen (lowmem_scan P nr min_adj (scan_init K min_adj true) ps) = Some buf
    /\ buf !! i = Some (tally i ps).
Proof.
  intros Hi Hlen.
  destruct (scan_tally P nr min_adj ps (scan_init K min_adj true)
              (replicate OOMS_SEEN_LEN 0) i 0 eq_refl) as (buf & Hbuf & Hval).
  - now apply lookup_replicate_2.
  - exists buf. split; [exact Hbuf |]. rewrite Hval. f_equal.
    apply to_int_id. pose proof (tally_range i ps). unfold is_int.
    rewrite half_modulus_eq in *. lia.
Qed.

Lemma ooms_seen_counts_witness :
  exists buf,
    ooms_seen (lowmem_scan default_params 10 8 (scan_init stingray 8 true)
                 [mk_task 1 6 300; mk_task 2 6 0; mk_task 3 12 40]) = Some buf
    /\ buf !! 6%nat = Some 2.
Proof.
  apply (ooms_seen_counts stingray default_params 10 8
           [mk_task 1 6 300; mk_task 2 6 0; mk_task 3 12 40] 6).
  - unfold OOMS_SEEN_LEN. lia.
  - vm_compute. reflexivity.
Defined.

(** ** Tasks that fail a filter *)

Lemma is_candidate_false min_adj p :
  is_candidate min_adj p = false ->
  forall adj size, ~ candidate min_adj p adj size.
Proof.
  unfold is_candidate. intros Hf adj size (m & sig & Hm & Hs & -> & -> & Hadj & Hsz).
  rewrite Hm, Hs in Hf.
  rewrite (proj2 (Z.leb_le _ _) Hadj), (proj2 (Z.ltb_lt _ _) Hsz) in Hf.
  discriminate.
Qed.

Lemma scan_filter_selection P nr min_adj ps s :
  selection (lowmem_scan P nr min_adj s (List.filter (is_candidate min_adj) ps))
  = selection (lowmem_scan P nr min_adj s ps).
Proof.
  revert s. induction ps as [| p ps IH]; intros s; cbn [List.filter];
    [reflexivity |].
  destruct (is_candidate min_adj p) eqn:Hp.
  - cbn [lowmem_scan fold_left]. apply IH.
  - rewrite IH. cbn [lowmem_scan fold_left].
    apply lowmem_scan_selection_congr. symmetry.
    apply step_not_candidate. now apply is_candidate_false.
Qed.

(** X17: tasks that fail a filter - kernel threads without an mm, tasks
    below the minimum priority, tasks without resident pages - have no
    influence on the outcome: with them removed from the process table the
    call returns the same value, kills the same task and leaves the same
    state. *)
Theorem non_candidates_are_ignored K st now counters ps ok n :
  let env := {| jiffies := now; global_page_state := counters;
                processes := ps; kzalloc_ok := ok |} in
  let env' := {| jiffies := now; global_page_state := counters;
                 processes := List.filter (is_candidate (shrink_min_adj K st env)) ps;
                 kzalloc_ok := ok |} in
  ret (lowmem_shrink K st env n) = ret (lowmem_shrink K st env' n)
  /\ state_after (lowmem_shrink K st env n) = state_after (lowmem_shrink K st env' n)
  /\ killed (lowmem_shrink K st env n) = killed (lowmem_shrink K st env' n).
Proof.
  cbv zeta. rewrite !lowmem_shrink_eq.
  set (env := {| jiffies := now; global_page_state := counters;
                 processes := ps; kzalloc_ok := ok |}).
  set (env' := {| jiffies := now; global_page_state := counters;
                  processes := List.filter (is_candidate (shrink_min_adj K st env)) ps;
                  kzalloc_ok := ok |}).
  change (guard_blocks st env') with (guard_blocks st env).
  change (shrink_min_adj K st env') with (shrink_min_adj K st env).
  change (reclaimable env') with (reclaimable env).
  destruct (guard_blocks st env); [repeat split |].
  destruct ((n <=? 0) || _); [repeat split |].
  cbv zeta.
  assert (Hsel : selection (shrink_scan K st env' n)
                 = selection (shrink_scan K st env n)).
  { unfold shrink_scan.
    change (shrink_min_adj K st env') with (shrink_min_adj K st env).
    apply scan_filter_selection. }
  unfold selection in Hsel. injection Hsel as H1 H2 _ _.
  rewrite H1, H2.
  destruct (selected (shrink_scan K st env n)); repeat split.
Qed.
